(** * Space Clockwork: the branch-tree engine and its reducer

    A shallow embedding of [src/index.js].  JavaScript numbers are IEEE 754
    binary64 values, so every numeric field and every arithmetic step below is
    Rocq's primitive [float] (the same format, the same rounding).  The
    [level] of a branch is an integer counter (1, 2, ... up to [numLevels]);
    it is kept as a [Z] and converted with [Z2F] where the code does
    floating-point arithmetic with it.

    What the file does not own is taken as an interface:
    - [MathLib]: [Math.cos], [Math.sin] and the [radians] helper of the
      [degrees-radians] package;
    - [RandomSource]: the [random-js] generator, as explicit state passing.
    The Redux store state is an Immutable [Map] with string keys: a [gmap].
    The canvas is what the renderer asks of it: a list of commands, in
    order.  The page is the store under the events its listeners dispatch
    on. *)

From Stdlib Require Import ZArith List Bool Lia Floats Permutation.
From Stdlib Require Uint63.
From stdpp Require Import base gmap strings.
From Equations Require Import Equations.
Import ListNotations.

Set Warnings "-register-all".
Local Open Scope Z_scope.

(** ** JavaScript numbers *)

(** An integer as a JavaScript number: the nearest binary64 value. *)
Definition Z2F (z : Z) : float :=
  SF2Prim (binary_normalize prec emax z 0 false).

(** The same conversion by the primitive operations, for the integers that
    fit in 63 bits ([Z2F_Z2F_prim] below): the one to run. *)
Definition Z2F_prim (z : Z) : float :=
  match z with
  | Z0 => 0%float
  | Zpos _ => of_uint63 (Uint63.of_Z z)
  | Zneg p => (- of_uint63 (Uint63.of_Z (Zpos p)))%float
  end.

(** A check of the integers from [lo] on, [n] of them. *)
Fixpoint all_from (P : Z -> bool) (lo : Z) (n : nat) : bool :=
  match n with
  | O => true
  | S n' => P lo && all_from P (lo + 1) n'
  end.

(** [Math.sqrt] is the correctly rounded IEEE square root. *)
Definition Math_sqrt (a : float) : float := PrimFloat.sqrt a.

(** JavaScript truthiness of a number: neither a zero nor NaN. *)
Definition truthy (n : float) : bool :=
  negb (n =? 0)%float && negb (is_nan n).

(** ** Shapes of binary64 values *)

(** Signs.  [SF_plus]: NaN, or of sign [+]; [SF_nonneg]: NaN, a zero of
    either sign, or of sign [+]. *)
Definition SF_plus (f : spec_float) : Prop :=
  match f with
  | S754_nan => True
  | S754_zero s | S754_infinity s | S754_finite s _ _ => s = false
  end.

Definition SF_nonneg (f : spec_float) : Prop :=
  match f with
  | S754_nan | S754_zero _ => True
  | S754_infinity s | S754_finite s _ _ => s = false
  end.

(** A number that is zero or finite, and one that is finite and not zero. *)
Definition SF_finite (f : spec_float) : Prop :=
  match f with
  | S754_zero _ | S754_finite _ _ _ => True
  | _ => False
  end.

Definition SF_nonzero (f : spec_float) : Prop :=
  match f with
  | S754_finite _ _ _ => True
  | _ => False
  end.

(** ** The Branch record *)

(** [Branch = Record({level: 0, x: 0, ..., children: List()})]. *)
Inductive Branch : Type := mkBranch {
  level : Z;
  x : float;
  y : float;
  endX : float;
  endY : float;
  length : float;
  rotation : float;
  rotationChange : float;
  children : list Branch
}.

(** [branch.set('children', cs)]. *)
Definition set_children (b : Branch) (cs : list Branch) : Branch :=
  mkBranch (level b) (x b) (y b) (endX b) (endY b)
           (length b) (rotation b) (rotationChange b) cs.

(** [branch.merge({x, y, rotation, endX, endY, children})]: the six named
    fields are replaced, [level], [length] and [rotationChange] are kept. *)
Definition merge_geometry (b : Branch) (x' y' rotation' endX' endY' : float)
    (children' : list Branch) : Branch :=
  mkBranch (level b) x' y' endX' endY' (length b) rotation' (rotationChange b)
           children'.

(** Every branch of a tree, parents before children, children left to right. *)
Fixpoint branches (b : Branch) : list Branch :=
  b :: flat_map branches (children b).

(** Number of levels of a tree: a branch without children has depth 1. *)
Fixpoint depth (b : Branch) : nat :=
  S (list_max (map depth (children b))).

(** Two trees with the same topology and the same creation-time fields:
    [level], [length], [rotationChange], and children that correspond one
    to one, in order. *)
Inductive same_shape : Branch -> Branch -> Prop :=
| same_shape_node b b' :
    level b' = level b ->
    length b' = length b ->
    rotationChange b' = rotationChange b ->
    Forall2 same_shape (children b) (children b') ->
    same_shape b b'.

(** ** Host interfaces *)

Class MathLib := {
  Math_cos : float -> float;
  Math_sin : float -> float;
  radians : float -> float
}.

(** The array [[1, -1]] a rotation change takes its sign from. *)
Definition signs : list Z := [1; -1].

(** [random.integer(min, max)], [random.die(sides)] and [random.pick(array)],
    each consuming the generator state. *)
Class RandomSource (rng : Type) := {
  integer : Z -> Z -> rng -> Z * rng;
  die : Z -> rng -> Z * rng;
  pick : list Z -> rng -> Z * rng
}.

(** The [random-js] library is not among the sources; these are the ranges
    of the calls the code makes.  [die(sides)] returns an integer from 1 to
    [sides] and [pick(array)] an element of the array: an integer in
    [1, 360] for the rotation seed, an integer in [1, 4] and a sign in
    {+1, -1} for the rotation change, as section 6 of the spec has them
    too. *)
Class DiceLaws {rng : Type} `{RandomSource rng} : Prop := {
  die_360 : forall g, 1 <= fst (die 360 g) <= 360;
  die_4 : forall g, 1 <= fst (die 4 g) <= 4;
  pick_sign : forall g, fst (pick signs g) = 1 \/ fst (pick signs g) = -1
}.

(** [integer(min, max)] returns an integer from [min] to [max], both
    included: the length draw [integer(100, 1500)] can be 1500. *)
Class RandomLaws {rng : Type} `{RandomSource rng} : Prop := {
  dice_laws : DiceLaws;
  integer_100_1500 : forall g, 100 <= fst (integer 100 1500 g) <= 1500
}.

(** ** The clockwork engine *)

Definition numLevels : Z := 8.

(** [Range(0, 2)]. *)
Definition childRange : list Z := [0; 1].

(** The wraparound policy in the words of the specification (section 4.2,
    step 2): above 360 reset to 0, below 0 reset to 360, otherwise keep. *)
Definition wraparound (nextRotation : float) : float :=
  if (360 <? nextRotation)%float then 0%float
  else if (nextRotation <? 0)%float then 360%float
  else nextRotation.

(** Membership in the closed interval from 0 to 360. *)
Definition within_0_360 (r : float) : bool :=
  ((0 <=? r) && (r <=? 360))%float.

(** Never below 0, never above 360: in the closed interval, or not a
    number at all. *)
Definition rotation_ok (r : float) : Prop :=
  (r <? 0)%float = false /\ (360 <? r)%float = false /\
  is_nan r || within_0_360 r = true.

(** A branch whose rotation is a number of the closed interval and whose
    rotation change is finite and not zero. *)
Definition numeric (b : Branch) : Prop :=
  within_0_360 (rotation b) = true /\
  is_finite (rotationChange b) = true /\
  (rotationChange b =? 0)%float = false.

(** Names the result and the next state of every draw in the goal. *)
Ltac name_draws :=
  repeat match goal with
         | |- context [let (_, _) := ?draw in _] => destruct draw
         end.

Section Engine.

Context `{MathLib} {rng : Type} `{RandomSource rng}.

(** Computations that draw from the random source. *)
Definition Rand (A : Type) : Type := rng -> A * rng.

Definition ret {A : Type} (a : A) : Rand A := fun g => (a, g).

Definition bind {A B : Type} (m : Rand A) (k : A -> Rand B) : Rand B :=
  fun g => let (a, g') := m g in k a g'.

Notation "v <- m ;; k" := (bind m (fun v => k))
  (at level 100, m at next level, right associativity).

(** [list.map(f)] where [f] draws random numbers: left to right. *)
Fixpoint mapM {A B : Type} (f : A -> Rand B) (l : list A) : Rand (list B) :=
  match l with
  | [] => ret []
  | a :: l' => b <- f a ;; bs <- mapM f l' ;; ret (b :: bs)
  end.

Definition nextBranchRotation (branch : Branch) (speed : float) : float :=
  let next := (rotation branch + rotationChange branch * speed)%float in
  if (360 <? next)%float then 0%float
  else if (next <? 0)%float then 360%float
  else next.

Fixpoint updateBranch (branch : Branch) (x y speed : float) : Branch :=
  let length := length branch in
  let rotation := nextBranchRotation branch speed in
  let radian := radians rotation in
  let endX := (x + length * Math_cos radian)%float in
  let endY := (y + length * Math_sin radian)%float in
  merge_geometry branch x y rotation endX endY
    (map (fun c => updateBranch c endX endY speed) (children branch)).

(** The record literal of [makeBranch]: [new Branch({level, length,
    rotation, rotationChange})], the other fields at their defaults.  The
    draws happen in the order the properties are written. *)
Definition freshBranch (level : Z) : Rand Branch :=
  len <- (if level =? 1 then ret 0%float
          else u <- integer 100 1500 ;;
               ret (1 / Z2F level * Z2F u)%float) ;;
  seed <- die 360 ;;
  change <- die 4 ;;
  sign <- pick signs ;;
  ret (mkBranch level 0 0 0 0 len (Z2F seed) (Z2F change * Z2F sign)%float []).

(** [makeBranch] and [addChildren] call each other; the recursion ends
    because every call is one level closer to [numLevels].  [makeBranch] is
    defined first, with the body of [addChildren] in place of the call;
    [addChildren] follows, and [makeBranch_eq] below gives back the
    equation the source is written as. *)
#[local] Obligation Tactic := idtac.

Equations makeBranch (lv : Z) (ox oy speed : float) (g : rng) : Branch * rng
  by wf (Z.to_nat (numLevels - lv)) lt :=
makeBranch lv ox oy speed g :=
  let fresh := freshBranch lv g in
  let branch := updateBranch (fst fresh) ox oy speed in
  match Z_ge_dec (level branch) numLevels with
  | left _ => (branch, snd fresh)
  | right _ =>
      let nextLevel := level branch + 1 in
      (children <- mapM (fun _ g' =>
                           makeBranch nextLevel (endX branch) (endY branch)
                                      speed g')
                        childRange ;;
       ret (set_children branch children)) (snd fresh)
  end.
Next Obligation.
  intros lv ox oy speed g _ fresh branch Hlt nextLevel _ _.
  assert (Hlv : level branch = lv).
  { subst branch fresh. unfold freshBranch, bind, ret.
    destruct (lv =? 1); name_draws; reflexivity. }
  subst nextLevel. rewrite Hlv in *. lia.
Qed.

Definition addChildren (branch : Branch) (speed : float) : Rand Branch :=
  if level branch >=? numLevels then ret branch
  else
    let nextLevel := level branch + 1 in
    children <- mapM (fun _ => makeBranch nextLevel (endX branch) (endY branch)
                                          speed)
                     childRange ;;
    ret (set_children branch children).

(** Repeated frames: [updateBranch] once per [(x, y, speed)] of the list. *)
Definition updates (t : Branch) (frames : list (float * float * float))
  : Branch :=
  fold_left (fun t f => updateBranch t (fst (fst f)) (snd (fst f)) (snd f))
            frames t.

End Engine.

Notation "v <- m ;; k" := (bind m (fun v => k))
  (at level 100, m at next level, right associativity).

(** ** The reducer *)

(** What the store's [Map] holds under a key. *)
Inductive Value : Type :=
| VNum (n : float)
| VBranch (b : Branch)
| VUndefined.

Abbreviation State := (gmap string Value).

(** [window.innerWidth] and [window.innerHeight]. *)
Record Window : Type := mkWindow {
  innerWidth : float;
  innerHeight : float
}.

(** The actions the reducer knows, and [OTHER] for any other type (the store
    sends one of its own when it is created). *)
Inductive Action : Type :=
| INIT (speed : option float)
| NEXT_FRAME
| MOVE (x y : float)
| OTHER.

(** [state.get(key)]: [undefined] for a key that is not set. *)
Definition get (state : State) (key : string) : Value :=
  match state !! key with
  | Some v => v
  | None => VUndefined
  end.

(** A value where the code computes with a number. *)
Definition toNumber (v : Value) : float :=
  match v with
  | VNum n => n
  | _ => nan
  end.

Section Reducer.

Context `{MathLib} {rng : Type} `{RandomSource rng}.

Variable window : Window.

(** [None] stands for the [TypeError] of [updateBranch] called on a [tree]
    that is not a branch. *)
Definition reducer (state : State) (action : Action) : Rand (option State) :=
  match action with
  | INIT action_speed =>
      let aspectRatio := (innerWidth window / innerHeight window)%float in
      let width := 2000%float in
      let height := (2000 / aspectRatio)%float in
      let newSpeed :=
        match action_speed with
        | Some s => if truthy s then VNum s else get state "speed"
        | None => get state "speed"
        end in
      tree <- makeBranch 1 (width / 2)%float (height / 2)%float 1%float ;;
      ret (Some (<["windowWidth" := VNum (innerWidth window)]>
                (<["windowHeight" := VNum (innerHeight window)]>
                (<["width" := VNum width]>
                (<["height" := VNum height]>
                (<["tree" := VBranch tree]>
                (<["speed" := newSpeed]> state)))))))
  | NEXT_FRAME =>
      let rootX := (toNumber (get state "width") / 2)%float in
      let rootY := (toNumber (get state "height") / 2)%float in
      let speed := toNumber (get state "speed") in
      match get state "tree" with
      | VBranch t =>
          ret (Some (<["tree" := VBranch (updateBranch t rootX rootY speed)]>
                     state))
      | _ => ret None
      end
  | MOVE action_x action_y =>
      let xDist := (action_x - toNumber (get state "windowWidth") / 2)%float in
      let yDist := (action_y - toNumber (get state "windowHeight") / 2)%float in
      let dist := Math_sqrt (xDist * xDist + yDist * yDist)%float in
      let factor :=
        (toNumber (get state "windowWidth") / 3
         * (if xDist <? 0 then -1 else 1))%float in
      ret (Some (<["speed" := VNum (dist / factor)%float]> state))
  | OTHER => ret (Some state)
  end.

End Reducer.

(** ** The renderer *)

(** [Math.PI]. *)
Definition Math_PI : float := 0x1.921fb54442d18p+1%float.

(** The colour string [rgba(r,g,b,a)] of a style, by its four numbers. *)
Inductive Style : Type :=
| Rgba (r g b : Z) (a : float).

(** What the renderer asks of the canvas and of its 2D context, in order. *)
Inductive Cmd : Type :=
| SetCanvasWidth (v : Value)
| SetCanvasHeight (v : Value)
| ClearCanvas
| StrokeStyle (s : Style)
| FillStyle (s : Style)
| LineWidth (w : float)
| LineCap (c : string)
| BeginPath
| MoveTo (x y : float)
| LineTo (x y : float)
| Stroke
| Arc (x y radius startAngle endAngle : float) (anticlockwise : bool)
| Fill.

(** The branches [n] steps below a branch; the branch itself for [n = 0]. *)
Fixpoint at_depth (n : nat) (b : Branch) : list Branch :=
  match n with
  | O => [b]
  | S n' => flat_map (at_depth n') (children b)
  end.

(** Number of branches of a list of trees. *)
Definition forest_size (bs : list Branch) : nat :=
  List.length (flat_map branches bs).

(** The two [forEach] callbacks of [renderLevel]: the "hand" and the "gear"
    of a branch. *)
Definition handPath (b : Branch) : list Cmd :=
  [MoveTo (x b) (y b); LineTo (endX b) (endY b)].

Definition gearPath (b : Branch) : list Cmd :=
  let x := x b in
  let y := y b in
  let length := length b in
  [MoveTo x y; Arc x y (length / 40) 0 (Math_PI * 2) false].

(** One level of the drawing: the styles, the "hands" path and the "gears"
    path of [renderLevel], up to the recursive call. *)
Definition renderPass (level : Z) (bs : list Branch) : list Cmd :=
  let alpha := (1 / Z2F (level + 1))%float in
  [StrokeStyle (Rgba 255 255 255 (alpha / 2));
   FillStyle (Rgba 248 187 208 alpha);
   LineWidth (1 / Z2F level * 50)%float;
   LineCap "round"]
  ++ BeginPath :: flat_map handPath bs
  ++ Stroke :: BeginPath :: flat_map gearPath bs
  ++ [Fill].

#[local] Obligation Tactic := idtac.

Equations renderLevel (lv : Z) (bs : list Branch) : list Cmd
  by wf (forest_size bs) lt :=
renderLevel lv bs :=
  renderPass lv bs ++
  let kids := flat_map children bs in
  match Nat.eq_dec (List.length kids) 0%nat with
  | left _ => []
  | right _ => renderLevel (lv + 1) kids
  end.
Next Obligation.
  intros lv bs _ kids Hsize. subst kids. unfold forest_size.
  assert (Hsplit : forall l, List.length (flat_map branches l) =
                             (List.length l
                              + List.length (flat_map branches
                                               (flat_map children l)))%nat).
  { induction l as [|b l IH]; [reflexivity|].
    destruct b as [? ? ? ? ? ? ? ? cs]. simpl.
    rewrite !flat_map_app, !length_app, IH. lia. }
  rewrite (Hsplit bs). destruct bs; [contradiction Hsize; reflexivity|].
  simpl. lia.
Qed.

(** [render]: the canvas takes the size in the store and is cleared whole
    ([clearRect(0, 0, canvas.width, canvas.height)]), then the tree is drawn
    from level 1.  [None]: the store's tree is not a branch, and the drawing
    does not complete (an undefined tree raises a [TypeError]). *)
Definition render (state : State) : option (list Cmd) :=
  match get state "tree" with
  | VBranch t =>
      Some (SetCanvasWidth (get state "width")
            :: SetCanvasHeight (get state "height")
            :: ClearCanvas
            :: renderLevel 1 [t])
  | _ => None
  end.


(** Depth of the deepest tree of a list. *)
Definition forest_depth (bs : list Branch) : nat := list_max (map depth bs).

(** The hands of a drawing: each [lineTo] that follows a [moveTo], from the
    point moved to, to the point of the line. *)
Fixpoint hands_of (cmds : list Cmd) : list (float * float * float * float) :=
  match cmds with
  | [] => []
  | MoveTo a b :: rest =>
      match rest with
      | LineTo c d :: _ => (a, b, c, d) :: hands_of rest
      | _ => hands_of rest
      end
  | _ :: rest => hands_of rest
  end.

(** The gears of a drawing: the centre and the radius of each [arc]. *)
Fixpoint gears_of (cmds : list Cmd) : list (float * float * float) :=
  match cmds with
  | [] => []
  | Arc a b r _ _ _ :: rest => (a, b, r) :: gears_of rest
  | _ :: rest => gears_of rest
  end.

Definition hand (b : Branch) : float * float * float * float :=
  (x b, y b, endX b, endY b).

Definition gear (b : Branch) : float * float * float :=
  (x b, y b, (length b / 40)%float).

(** A tree whose every branch hands its end point to its children. *)
Definition connected (t : Branch) : Prop :=
  Forall (fun b => Forall (fun c => x c = endX b /\ y c = endY b) (children b))
         (branches t).

(** ** The page *)

(** What the page reacts to: an animation frame, the pointer moving over the
    canvas, a click on it. *)
Inductive Event : Type :=
| AnimationFrame
| MouseMove (clientX clientY : float)
| Click.

(** The action each listener dispatches. *)
Definition action_of (e : Event) : Action :=
  match e with
  | AnimationFrame => NEXT_FRAME
  | MouseMove clientX clientY => MOVE clientX clientY
  | Click => INIT None
  end.

(** Two branches that agree on all that [updateBranch] reads: [length],
    [rotation], [rotationChange] and, kept as it is, [level]; and so do
    their children, one by one. *)
Inductive same_core : Branch -> Branch -> Prop :=
| same_core_node b b' :
    level b' = level b ->
    length b' = length b ->
    rotation b' = rotation b ->
    rotationChange b' = rotationChange b ->
    Forall2 same_core (children b) (children b') ->
    same_core b b'.

Section Page.

Context `{MathLib} {rng : Type} `{RandomSource rng}.

(** One event: the store takes the reducer's result, then the subscribed
    [render] draws it.  [None]: the reducer or the renderer threw. *)
Definition on_event (window : Window) (state : State) (e : Event)
  : Rand (option State) :=
  r <- reducer window state (action_of e) ;;
  ret (match r with
       | Some state' =>
           match render state' with
           | Some _ => Some state'
           | None => None
           end
       | None => None
       end).

(** The events of a session, each with the window as it is when the event
    comes, up to the first exception. *)
Fixpoint run (state : State) (events : list (Window * Event))
  : Rand (option State) :=
  match events with
  | [] => ret (Some state)
  | (window, e) :: rest =>
      r <- on_event window state e ;;
      match r with
      | Some state' => run state' rest
      | None => ret None
      end
  end.

(** Loading the page: [createStore] sends the reducer an action of its own
    on the empty [Map], then the script dispatches [INIT] with speed 1, before
    any listener is there. *)
Definition boot (window : Window) : Rand (option State) :=
  r <- reducer window ∅ OTHER ;;
  match r with
  | Some state => reducer window state (INIT (Some 1%float))
  | None => ret None
  end.

Definition page (window : Window) (events : list (Window * Event))
  : Rand (option State) :=
  r <- boot window ;;
  match r with
  | Some state => run state events
  | None => ret None
  end.

(** A tree with the shape of one built from level 1. *)
Definition built_shape (t : Branch) : Prop :=
  exists ox oy speed g, same_shape (fst (makeBranch 1 ox oy speed g)) t.

(** What the store of a running page holds. *)
Definition page_ok (state : State) : Prop :=
  exists t height speed ww wh,
    state !! "tree" = Some (VBranch t) /\
    state !! "width" = Some (VNum 2000) /\
    state !! "height" = Some (VNum height) /\
    state !! "speed" = Some (VNum speed) /\
    state !! "windowWidth" = Some (VNum ww) /\
    state !! "windowHeight" = Some (VNum wh) /\
    built_shape t /\ connected t /\
    x t = 1000%float /\ y t = (height / 2)%float /\
    Forall (fun b => rotation_ok (rotation b)) (branches t).

End Page.

(** ** Sample hosts, for running the definitions *)

(** [radians] as degrees times pi/180; cosine and sine by their Taylor
    polynomials of degree 12 and 13. *)
Definition sample_cos (r : float) : float :=
  let q := (r * r)%float in
  (1 - q / 2 * (1 - q / 12 * (1 - q / 30 * (1 - q / 56 * (1 - q / 90
     * (1 - q / 132))))))%float.

Definition sample_sin (r : float) : float :=
  let q := (r * r)%float in
  (r * (1 - q / 6 * (1 - q / 20 * (1 - q / 42 * (1 - q / 72 * (1 - q / 110
     * (1 - q / 156)))))))%float.

Definition sampleMath : MathLib := {|
  Math_cos := sample_cos;
  Math_sin := sample_sin;
  radians := fun d => (d * (0x1.921fb54442d18p+1 / 180))%float
|}.

(** A scripted random source, as a test would inject: the state is the list
    of the outcomes still to come, each clamped into the range asked for. *)
Definition clamp (lo hi z : Z) : Z := Z.max lo (Z.min hi z).

Definition scripted_next (g : list Z) : Z * list Z :=
  match g with
  | [] => (0, [])
  | z :: g' => (z, g')
  end.

Definition scriptedRandom : RandomSource (list Z) := {|
  integer := fun lo hi g =>
    let (z, g') := scripted_next g in (clamp lo hi z, g');
  die := fun sides g =>
    let (z, g') := scripted_next g in (clamp 1 sides z, g');
  pick := fun l g =>
    let (z, g') := scripted_next g in (nth (Z.to_nat z) l (hd 0 l), g')
|}.

(** A page 800 by 600: the canvas is 2000 wide, the tree starts at its
    centre.  The script makes the root draw seed 2, change 4 and sign -1. *)
Definition sample_window : Window := mkWindow 800 600.

Definition sample_state : State :=
  <["windowWidth" := VNum 800]> (<["windowHeight" := VNum 600]> ∅).

Definition sample_tree : Branch :=
  fst (@makeBranch sampleMath (list Z) scriptedRandom 1 1000 750 1 [2; 4; 1]).

(** The same page with a script that goes on: the first child of the root
    draws 1500 for its length. *)
Definition sample_long_tree : Branch :=
  fst (@makeBranch sampleMath (list Z) scriptedRandom 1 1000 750 1
         [2; 4; 1; 1500]).

(** The store of that page after its first [INIT]. *)
Definition sample_store : State :=
  <["tree" := VBranch sample_tree]>
    (<["speed" := VNum 1]>
       (<["width" := VNum 2000]> (<["height" := VNum 1500]> sample_state))).

(** * Properties *)

(** ** Binary64 facts *)

Lemma Prim2SF_zero : Prim2SF 0 = S754_zero false.
Proof. reflexivity. Qed.

Lemma SFcompare_refl (f : spec_float) :
  f <> S754_nan -> SFcompare f f = Some Eq.
Proof.
  destruct f as [s|s| |s m e]; simpl; try congruence; intros _.
  - destruct s; reflexivity.
  - destruct s; rewrite Z.compare_refl, Pos.compare_cont_refl; reflexivity.
Qed.

Lemma SFcompare_antisym (f1 f2 : spec_float) (c : comparison) :
  SFcompare f1 f2 = Some c -> SFcompare f2 f1 = Some (CompOpp c).
Proof.
  destruct f1 as [s1|s1| |s1 m1 e1], f2 as [s2|s2| |s2 m2 e2]; simpl;
    try discriminate; intros [= <-]; f_equal;
    try (destruct s1; reflexivity); try (destruct s2; reflexivity);
    try (destruct s1, s2; reflexivity).
  rewrite (Z.compare_antisym e1 e2).
  change (PosDef.Pos.compare_cont Eq m2 m1) with (Pos.compare m2 m1).
  change (PosDef.Pos.compare_cont Eq m1 m2) with (Pos.compare m1 m2).
  rewrite (Pos.compare_antisym m1 m2).
  destruct s1, s2; simpl; try reflexivity;
    destruct (e1 ?= e2); simpl; try reflexivity;
    destruct (m1 ?= m2)%positive; reflexivity.
Qed.

Lemma is_nan_false (a : float) : is_nan a = false -> Prim2SF a <> S754_nan.
Proof.
  unfold is_nan. rewrite FloatAxioms.eqb_spec. intros Hn Ha.
  rewrite Ha in Hn. discriminate.
Qed.

Lemma is_nan_true (a : float) : is_nan a = true -> Prim2SF a = S754_nan.
Proof.
  unfold is_nan. rewrite FloatAxioms.eqb_spec. unfold SFeqb. intros Hn.
  destruct (Prim2SF a) as [s|s| |s m e] eqn:Ha; try reflexivity;
    rewrite SFcompare_refl in Hn by discriminate; discriminate.
Qed.

(** Among numbers, "not less than" is "greater than or equal to". *)
Lemma ltb_false_leb (a b : float) :
  is_nan a = false -> is_nan b = false ->
  (a <? b)%float = false -> (b <=? a)%float = true.
Proof.
  intros Ha Hb. apply is_nan_false in Ha, Hb.
  rewrite FloatAxioms.ltb_spec, FloatAxioms.leb_spec. unfold SFltb, SFleb.
  destruct (SFcompare (Prim2SF a) (Prim2SF b)) as [c|] eqn:Hc.
  - rewrite (SFcompare_antisym _ _ _ Hc). destruct c; simpl; congruence.
  - destruct (Prim2SF a), (Prim2SF b); simpl in Hc; congruence.
Qed.

(** The shape of a finite number. *)
Lemma is_finite_SF (a : float) :
  is_finite a = true ->
  (exists s, Prim2SF a = S754_zero s) \/
  (exists s m e, Prim2SF a = S754_finite s m e).
Proof.
  unfold is_finite. rewrite negb_true_iff, orb_false_iff. intros [Hn Hi].
  apply is_nan_false in Hn. unfold is_infinity in Hi.
  rewrite FloatAxioms.eqb_spec, abs_spec in Hi.
  destruct (Prim2SF a) as [s|s| |s m e]; eauto; [discriminate | congruence].
Qed.

(** A finite number minus itself is [+0]. *)
Lemma sub_diag_finite (a : float) :
  is_finite a = true -> (a - a)%float = 0%float.
Proof.
  intros Ha. apply Prim2SF_inj. rewrite sub_spec, Prim2SF_zero.
  destruct (is_finite_SF a Ha) as [[s ->] | (s & m & e & ->)].
  - destruct s; reflexivity.
  - unfold SF64sub, SFsub. rewrite Z.min_id, Z.sub_diag. reflexivity.
Qed.

(** Adding a zero leaves a number as it is, as far as [==] can tell. *)
Lemma add_zero_eqb (a z : float) :
  is_nan a = false -> (z =? 0)%float = true -> (a + z =? a)%float = true.
Proof.
  intros Ha Hz. apply is_nan_false in Ha.
  rewrite FloatAxioms.eqb_spec in Hz. rewrite Prim2SF_zero in Hz.
  rewrite FloatAxioms.eqb_spec, add_spec. unfold SFeqb in *.
  destruct (Prim2SF z) as [sz|sz| |sz mz ez]; simpl in Hz;
    try discriminate; try (destruct sz; discriminate).
  destruct (Prim2SF a) as [s|s| |s m e]; try congruence.
  - destruct s, sz; reflexivity.
  - simpl. destruct s; reflexivity.
  - unfold SF64add, SFadd. rewrite SFcompare_refl by discriminate. reflexivity.
Qed.

(** Zero times a finite number is a zero. *)
Lemma mul_zero_finite (c : float) :
  is_finite c = true -> (0 * c =? 0)%float = true.
Proof.
  intros Hc. rewrite FloatAxioms.eqb_spec, mul_spec, Prim2SF_zero.
  destruct (is_finite_SF c Hc) as [[s ->] | (s & m & e & ->)]; reflexivity.
Qed.

Lemma SF_plus_nonneg (f : spec_float) : SF_plus f -> SF_nonneg f.
Proof. destruct f; simpl; auto. Qed.

Lemma binary_round_aux_plus (m e : Z) (l : location) :
  SF_plus (binary_round_aux prec emax false m e l).
Proof.
  unfold binary_round_aux.
  destruct (shr_fexp prec emax m e l) as [mrs' e'].
  destruct (shr_fexp prec emax _ e' loc_Exact) as [mrs'' e''].
  destruct (shr_m mrs''); simpl; auto.
  destruct (e'' <=? emax - prec); reflexivity.
Qed.

Lemma SF64sqrt_nonneg (f : spec_float) : SF_nonneg (SF64sqrt f).
Proof.
  destruct f as [s|[|]| |[|] m e]; simpl; auto.
  unfold SF64sqrt, SFsqrt.
  destruct (SFsqrt_core_binary prec emax (Z.pos m) e) as [[mz ez] lz].
  apply SF_plus_nonneg, binary_round_aux_plus.
Qed.

Lemma SF64mul_plus (a b : spec_float) :
  SF_plus a -> SF_plus b -> SF_plus (SF64mul a b).
Proof.
  destruct a as [sa|sa| |sa ma ea], b as [sb|sb| |sb mb eb]; simpl;
    intros; subst; auto.
  apply binary_round_aux_plus.
Qed.


Lemma SF64div_plus (a b : spec_float) :
  SF_plus a -> SF_plus b -> SF_plus (SF64div a b).
Proof.
  destruct a as [sa|sa| |sa ma ea], b as [sb|sb| |sb mb eb]; simpl;
    intros; subst; auto.
  unfold SF64div, SFdiv.
  destruct (SFdiv_core_binary prec emax (Z.pos ma) ea (Z.pos mb) eb)
    as [[mz ez] lz].
  apply binary_round_aux_plus.
Qed.

Lemma SF64div_nonneg (a b : spec_float) :
  SF_nonneg a -> SF_plus b -> SF_nonneg (SF64div a b).
Proof.
  destruct a as [sa|sa| |sa ma ea], b as [sb|sb| |sb mb eb]; simpl;
    intros; subst; auto.
  unfold SF64div, SFdiv.
  destruct (SFdiv_core_binary prec emax (Z.pos ma) ea (Z.pos mb) eb)
    as [[mz ez] lz].
  apply SF_plus_nonneg, binary_round_aux_plus.
Qed.


Lemma positive_plus (w : float) : (0 <? w)%float = true -> SF_plus (Prim2SF w).
Proof.
  rewrite FloatAxioms.ltb_spec, Prim2SF_zero. unfold SFltb.
  destruct (Prim2SF w) as [s|s| |s m e]; simpl; try discriminate;
    destruct s; try discriminate; reflexivity.
Qed.

Lemma nonneg_ltb_zero (a : float) :
  SF_nonneg (Prim2SF a) -> (a <? 0)%float = false.
Proof.
  rewrite FloatAxioms.ltb_spec, Prim2SF_zero. unfold SFltb.
  destruct (Prim2SF a) as [s|s| |s m e]; simpl; intros; subst; reflexivity.
Qed.


(** Multiplying by [1] or by [-1] is exact: it keeps the number, or flips
    its sign. *)
Lemma iter_shr_1_52 (m : positive) :
  SpecFloat.iter_pos shr_1 52
    (shr_record_of_loc (Z.pos (4503599627370496 * m)) loc_Exact)
  = {| shr_m := Z.pos m; shr_r := false; shr_s := false |}.
Proof. reflexivity. Qed.

Lemma digits2_shift_52 (m : positive) :
  Z.pos (digits2_pos (4503599627370496 * m)) = Z.pos (digits2_pos m) + 52.
Proof. cbv [Pos.mul]. cbn [digits2_pos]. lia. Qed.

Lemma SF64mul_unit (sg : bool) (f : spec_float) :
  valid_binary f = true ->
  SF64mul f (S754_finite sg 4503599627370496 (-52)) =
  if sg then SFopp f else f.
Proof.
  intros Hv. destruct f as [s|s| |s m e];
    try (destruct s, sg; reflexivity); [destruct sg; reflexivity|].
  simpl in Hv. unfold bounded, canonical_mantissa in Hv.
  apply andb_prop in Hv. destruct Hv as [Hc He]. apply Z.eqb_eq in Hc.
  unfold SF64mul, SFmul, binary_round_aux, shr_fexp.
  rewrite Pos.mul_comm. unfold Zdigits2. rewrite digits2_shift_52.
  replace (Z.pos (digits2_pos m) + 52 + (e + -52))
    with (Z.pos (digits2_pos m) + e) by lia.
  rewrite Hc. replace (e - (e + -52)) with 52 by lia.
  unfold shr at 1. rewrite !iter_shr_1_52.
  cbn [shr_m loc_of_shr_record round_nearest_even].
  replace (e + -52 + 52) with e by lia.
  unfold Zdigits2. rewrite Hc, Z.sub_diag. cbn [shr shr_record_of_loc shr_m].
  rewrite He. destruct s, sg; reflexivity.
Qed.

Lemma mul_one (a : float) : (a * 1)%float = a.
Proof.
  apply Prim2SF_inj. rewrite mul_spec.
  apply (SF64mul_unit false), Prim2SF_valid.
Qed.

Lemma mul_minus_one (a : float) : (a * -1)%float = (- a)%float.
Proof.
  apply Prim2SF_inj. rewrite mul_spec, opp_spec.
  apply (SF64mul_unit true), Prim2SF_valid.
Qed.


(** Rounding never makes a NaN out of a mantissa that is not negative. *)
Lemma iter_pos_invariant {A : Type} (Q : A -> Prop) (f : A -> A) :
  (forall a, Q a -> Q (f a)) ->
  forall p a, Q a -> Q (SpecFloat.iter_pos f p a).
Proof.
  intros step. induction p as [p IH|p IH|]; intros a Ha; simpl; auto.
Qed.

Lemma shr_1_nonneg (mrs : shr_record) :
  0 <= shr_m mrs -> 0 <= shr_m (shr_1 mrs).
Proof.
  destruct mrs as [m r s]. simpl.
  destruct m as [|[p|p|]|[p|p|]]; simpl; lia.
Qed.

Lemma shr_fexp_nonneg (m e : Z) (l : location) :
  0 <= m -> 0 <= shr_m (fst (shr_fexp prec emax m e l)).
Proof.
  intros Hm. unfold shr_fexp, shr.
  assert (Hrec : 0 <= shr_m (shr_record_of_loc m l))
    by (destruct l as [|[| |]]; exact Hm).
  destruct (fexp prec emax (Zdigits2 m + e) - e); cbn [fst]; try exact Hrec.
  apply (iter_pos_invariant (fun mrs => 0 <= shr_m mrs));
    auto using shr_1_nonneg.
Qed.

Lemma round_nearest_even_nonneg (m : Z) (l : location) :
  0 <= m -> 0 <= round_nearest_even m l.
Proof.
  intros Hm. destruct l as [|[| |]]; simpl; try lia.
  destruct (Z.even m); lia.
Qed.

Lemma binary_round_aux_not_nan (s : bool) (m e : Z) (l : location) :
  0 <= m -> binary_round_aux prec emax s m e l <> S754_nan.
Proof.
  intros Hm. unfold binary_round_aux.
  pose proof (shr_fexp_nonneg m e l Hm) as H1.
  destruct (shr_fexp prec emax m e l) as [mrs' e']. cbn [fst] in H1.
  pose proof (shr_fexp_nonneg _ e' loc_Exact
                (round_nearest_even_nonneg _ (loc_of_shr_record mrs') H1))
    as H2.
  destruct (shr_fexp prec emax _ e' loc_Exact) as [mrs'' e'']. cbn [fst] in H2.
  destruct (shr_m mrs''); try discriminate; [|lia].
  destruct (e'' <=? emax - prec); discriminate.
Qed.

Lemma binary_normalize_not_nan (m e : Z) (s : bool) :
  binary_normalize prec emax m e s <> S754_nan.
Proof.
  unfold binary_normalize, binary_round.
  destruct m as [|p|p]; try discriminate;
    destruct (shl_align _ _ _) as [mz ez];
    apply binary_round_aux_not_nan; lia.
Qed.

Lemma SF64mul_nonzero_not_nan (a b : spec_float) :
  SF_nonzero a -> b <> S754_nan -> SF64mul a b <> S754_nan.
Proof.
  destruct a as [sa|sa| |sa ma ea]; simpl; try contradiction. intros _.
  destruct b as [sb|sb| |sb mb eb]; try congruence; try discriminate.
  intros _. apply binary_round_aux_not_nan. lia.
Qed.

Lemma SF64add_finite_not_nan (a b : spec_float) :
  SF_finite a -> b <> S754_nan -> SF64add a b <> S754_nan.
Proof.
  destruct a as [sa|sa| |sa ma ea]; simpl; try contradiction; intros _;
    destruct b as [sb|sb| |sb mb eb]; try congruence; try discriminate.
  - destruct sa, sb; discriminate.
  - intros _. apply binary_normalize_not_nan.
Qed.

Lemma not_nan_is_nan (a : float) : Prim2SF a <> S754_nan -> is_nan a = false.
Proof.
  intros Ha. destruct (is_nan a) eqn:Hn; [|reflexivity].
  apply is_nan_true in Hn. contradiction.
Qed.

Lemma within_0_360_finite (r : float) :
  within_0_360 r = true -> SF_finite (Prim2SF r).
Proof.
  unfold within_0_360. rewrite andb_true_iff, !FloatAxioms.leb_spec.
  rewrite Prim2SF_zero. unfold SFleb.
  destruct (Prim2SF r) as [s|s| |s m e]; simpl; auto; intros [H0 H360].
  - destruct s; discriminate.
  - discriminate.
Qed.

Lemma nonzero_SF (c : float) :
  is_finite c = true -> (c =? 0)%float = false -> SF_nonzero (Prim2SF c).
Proof.
  intros Hfin Hz. rewrite FloatAxioms.eqb_spec, Prim2SF_zero in Hz.
  destruct (is_finite_SF c Hfin) as [[s Hc] | (s & m & e & Hc)];
    rewrite Hc in *; simpl; auto. discriminate.
Qed.

(** One step from a rotation in range, with a finite change that is not
    zero and a speed that is a number, gives a number. *)
Lemma rotation_step_not_nan (r c s : float) :
  within_0_360 r = true ->
  is_finite c = true -> (c =? 0)%float = false ->
  is_nan s = false ->
  is_nan (r + c * s) = false.
Proof.
  intros Hr Hc Hz Hs. apply not_nan_is_nan. rewrite add_spec, mul_spec.
  apply SF64add_finite_not_nan; [apply within_0_360_finite, Hr|].
  apply SF64mul_nonzero_not_nan; [apply nonzero_SF; assumption|].
  apply is_nan_false, Hs.
Qed.

(** ** The wraparound *)

Lemma wraparound_ok (nextRotation : float) :
  rotation_ok (wraparound nextRotation).
Proof.
  unfold rotation_ok, wraparound, within_0_360.
  destruct (360 <? nextRotation)%float eqn:Hhi; [repeat split; reflexivity|].
  destruct (nextRotation <? 0)%float eqn:Hlo; [repeat split; reflexivity|].
  repeat split; try assumption.
  destruct (is_nan nextRotation) eqn:Hn; [reflexivity|]. cbn [orb].
  rewrite (ltb_false_leb nextRotation 0), (ltb_false_leb 360 nextRotation);
    auto.
Qed.

Lemma wraparound_within (n : float) :
  is_nan n = false -> within_0_360 (wraparound n) = true.
Proof.
  intros Hn. destruct (wraparound_ok n) as (_ & _ & Hok).
  assert (Hw : is_nan (wraparound n) = false).
  { unfold wraparound. destruct (360 <? n)%float; [reflexivity|].
    destruct (n <? 0)%float; [reflexivity | exact Hn]. }
  rewrite Hw in Hok. exact Hok.
Qed.

(** Integers as binary64 values. *)
Lemma binary_round_aux_opp (s : bool) (m e : Z) (l : location) :
  SFopp (binary_round_aux prec emax s m e l) =
  binary_round_aux prec emax (negb s) m e l.
Proof.
  unfold binary_round_aux.
  destruct (shr_fexp prec emax m e l) as [mrs' e'].
  destruct (shr_fexp prec emax _ e' loc_Exact) as [mrs'' e''].
  destruct (shr_m mrs''); try reflexivity.
  destruct (e'' <=? emax - prec); reflexivity.
Qed.

Lemma Uint63_to_of_Z (z : Z) :
  0 <= z < 9223372036854775808 -> Uint63.to_Z (Uint63.of_Z z) = z.
Proof.
  intros Hz. rewrite Uint63.of_Z_spec. apply Z.mod_small.
  change Uint63.wB with 9223372036854775808. exact Hz.
Qed.

Lemma Z2F_of_uint63 (z : Z) :
  0 <= z < 9223372036854775808 -> Z2F z = of_uint63 (Uint63.of_Z z).
Proof.
  intros Hz. unfold Z2F.
  rewrite <- (Uint63_to_of_Z z Hz) at 1.
  rewrite <- of_uint63_spec. apply SF2Prim_Prim2SF.
Qed.

Lemma binary_normalize_opp (z e : Z) :
  binary_normalize prec emax (- z) e false =
  match z with
  | Z0 => S754_zero false
  | _ => SFopp (binary_normalize prec emax z e false)
  end.
Proof.
  destruct z as [|p|p]; try reflexivity; simpl; unfold binary_round;
    destruct (shl_align _ _ _) as [mz ez];
    rewrite binary_round_aux_opp; reflexivity.
Qed.

Lemma Z2F_Z2F_prim (z : Z) :
  - 9223372036854775808 < z < 9223372036854775808 -> Z2F z = Z2F_prim z.
Proof.
  intros Hz. destruct z as [|p|p]; unfold Z2F_prim.
  - reflexivity.
  - apply Z2F_of_uint63. lia.
  - unfold Z2F. change (Z.neg p) with (- Z.pos p).
    rewrite binary_normalize_opp.
    rewrite <- (Uint63_to_of_Z (Z.pos p)) at 1 by lia.
    rewrite <- of_uint63_spec, <- FloatAxioms.opp_spec.
    apply SF2Prim_Prim2SF.
Qed.

Lemma all_from_spec (P : Z -> bool) (n : nat) :
  forall lo, all_from P lo n = true ->
             forall z, lo <= z < lo + Z.of_nat n -> P z = true.
Proof.
  induction n as [|n IH]; intros lo Hall z Hz; [lia|].
  simpl in Hall. apply andb_prop in Hall. destruct Hall as [Hlo Hrest].
  destruct (Z.eq_dec z lo) as [-> | Hne]; [exact Hlo|].
  apply (IH (lo + 1) Hrest). lia.
Qed.

Lemma Z2F_seed_finite (seed : Z) :
  1 <= seed <= 360 -> within_0_360 (Z2F seed) = true.
Proof.
  intros Hs. rewrite Z2F_Z2F_prim by lia.
  apply (all_from_spec (fun z => within_0_360 (Z2F_prim z)) 360 1);
    [vm_compute; reflexivity | lia].
Qed.

Lemma Z2F_change_numeric (change sign : Z) :
  1 <= change <= 4 -> sign = 1 \/ sign = -1 ->
  is_finite (Z2F change * Z2F sign) = true /\
  (Z2F change * Z2F sign =? 0)%float = false.
Proof.
  intros Hc Hs.
  assert (Hcases : change = 1 \/ change = 2 \/ change = 3 \/ change = 4) by lia.
  destruct Hs as [-> | ->]; destruct Hcases as [-> | [-> | [-> | ->]]];
    split; reflexivity.
Qed.

(** A length drawn at a level from 2 to 8 is a number above 0, at most
    750. *)
Lemma length_draw_bounds (lv U : Z) :
  2 <= lv <= 8 -> 100 <= U <= 1500 ->
  (0 <? 1 / Z2F lv * Z2F U)%float = true /\
  (1 / Z2F lv * Z2F U <=? 750)%float = true.
Proof.
  intros Hlv HU. rewrite !Z2F_Z2F_prim by lia.
  apply andb_prop.
  assert (Hcases : lv = 2 \/ lv = 3 \/ lv = 4 \/ lv = 5 \/ lv = 6 \/ lv = 7
                   \/ lv = 8) by lia.
  destruct Hcases as [-> | [-> | [-> | [-> | [-> | [-> | ->]]]]]];
    apply (all_from_spec
             (fun z => ((0 <? 1 / Z2F_prim _ * Z2F_prim z)
                        && (1 / Z2F_prim _ * Z2F_prim z <=? 750))%float)
             1401 100);
    try lia; vm_compute; reflexivity.
Qed.


(** ** Trees *)

(** Induction over a tree: a property that holds of a branch whenever it
    holds of all its children holds of every branch. *)
Lemma Branch_tree_ind (P : Branch -> Prop) :
  (forall b, Forall P (children b) -> P b) -> forall b, P b.
Proof.
  intros step. fix IH 1. intros [lv bx by_ ex ey len rot rc cs].
  apply step. simpl.
  induction cs as [|c cs IHcs]; constructor; [apply IH | exact IHcs].
Qed.

Lemma Forall_flat_map {A B : Type} (P : B -> Prop) (f : A -> list B)
    (l : list A) :
  Forall P (flat_map f l) <-> Forall (fun a => Forall P (f a)) l.
Proof.
  induction l as [|a l IHl]; simpl.
  - split; constructor.
  - rewrite Forall_app, IHl. split.
    + intros [Ha Hl]. constructor; assumption.
    + intros Hal. inversion Hal; subst. split; assumption.
Qed.

Lemma Forall_branches (P : Branch -> Prop) (b : Branch) :
  Forall P (branches b) <->
  P b /\ Forall (fun c => Forall P (branches c)) (children b).
Proof.
  destruct b as [lv bx by_ ex ey len rot rc cs]. simpl.
  rewrite <- Forall_flat_map. split.
  - intros Hall. inversion Hall; subst. split; assumption.
  - intros [Hb Hcs]. constructor; assumption.
Qed.

Lemma Forall2_flat_map {A B C D : Type} (R : C -> D -> Prop)
    (f : A -> list C) (f' : B -> list D) (l : list A) (l' : list B) :
  Forall2 (fun a b => Forall2 R (f a) (f' b)) l l' ->
  Forall2 R (flat_map f l) (flat_map f' l').
Proof.
  induction 1; simpl; [constructor | apply Forall2_app; assumption].
Qed.

Lemma same_shape_refl (t : Branch) : same_shape t t.
Proof.
  induction t as [b IHb] using Branch_tree_ind.
  constructor; try reflexivity.
  induction IHb; constructor; assumption.
Qed.

Lemma same_shape_trans (t1 t2 t3 : Branch) :
  same_shape t1 t2 -> same_shape t2 t3 -> same_shape t1 t3.
Proof.
  revert t2 t3. induction t1 as [b IHb] using Branch_tree_ind.
  intros t2 t3 H12 H23. inversion H12 as [? ? Hl Hn Hr Hc]; subst.
  inversion H23 as [? ? Hl' Hn' Hr' Hc']; subst.
  constructor; try congruence.
  clear - IHb Hc Hc'. revert Hc'. generalize (children t3).
  induction Hc as [|c1 c2 cs1 cs2 Hcc Hcs IH]; intros cs3 Hc3;
    inversion Hc3; subst; constructor.
  - inversion IHb; subst. eauto.
  - inversion IHb; subst. eauto.
Qed.

(** Trees of the same shape agree branch by branch. *)
Lemma same_shape_branches (t t' : Branch) :
  same_shape t t' ->
  Forall2 (fun b b' =>
             level b' = level b /\ length b' = length b /\
             rotationChange b' = rotationChange b /\
             List.length (children b') = List.length (children b))
          (branches t) (branches t').
Proof.
  revert t'. induction t as [b IHb] using Branch_tree_ind.
  intros t' Hs. inversion Hs as [? ? Hl Hn Hr Hc]; subst.
  destruct b as [lv bx by_ ex ey len rot rc cs].
  destruct t' as [lv' bx' by' ex' ey' len' rot' rc' cs'].
  simpl in *. constructor.
  - repeat split; try assumption. symmetry. eapply Forall2_length; eassumption.
  - apply Forall2_flat_map. clear - IHb Hc.
    induction Hc; constructor; inversion IHb; subst; eauto.
Qed.

(** ** The update pass *)

Section UpdateFacts.

Context `{MathLib}.

Lemma nextBranchRotation_wraparound (branch : Branch) (speed : float) :
  nextBranchRotation branch speed =
  wraparound (rotation branch + rotationChange branch * speed)%float.
Proof. reflexivity. Qed.

(** One step of [updateBranch], field by field. *)
Lemma updateBranch_unfold (b : Branch) (ox oy s : float) :
  updateBranch b ox oy s =
  let r := nextBranchRotation b s in
  let ex := (ox + length b * Math_cos (radians r))%float in
  let ey := (oy + length b * Math_sin (radians r))%float in
  mkBranch (level b) ox oy ex ey (length b) r (rotationChange b)
           (map (fun c => updateBranch c ex ey s) (children b)).
Proof. destruct b; reflexivity. Qed.

Lemma updateBranch_same_shape (t : Branch) :
  forall ox oy s, same_shape t (updateBranch t ox oy s).
Proof.
  induction t as [b IHb] using Branch_tree_ind. intros ox oy s.
  rewrite updateBranch_unfold. constructor; try reflexivity. simpl.
  induction IHb; simpl; constructor; auto.
Qed.

Lemma updates_same_shape (frames : list (float * float * float)) :
  forall t, same_shape t (updates t frames).
Proof.
  induction frames as [|f frames IH]; intros t; simpl.
  - apply same_shape_refl.
  - eapply same_shape_trans; [apply updateBranch_same_shape | apply IH].
Qed.

(** A property that one update step establishes at a branch, whatever the
    branch and the origin, holds all over an updated tree. *)
Lemma updateBranch_Forall (P : Branch -> Prop) (s : float) :
  (forall b ox oy, P (updateBranch b ox oy s)) ->
  forall t ox oy, Forall P (branches (updateBranch t ox oy s)).
Proof.
  intros step. induction t as [b IHb] using Branch_tree_ind. intros ox oy.
  apply Forall_branches. split; [apply step|].
  rewrite updateBranch_unfold. simpl. apply Forall_map.
  eapply List.Forall_impl; [|exact IHb]. intros c Hc. apply Hc.
Qed.

(** The same, for a property that relates each branch to the one it was
    computed from. *)
Lemma updateBranch_Forall2 (R : Branch -> Branch -> Prop) (s : float) :
  (forall b ox oy, R b (updateBranch b ox oy s)) ->
  forall t ox oy, Forall2 R (branches t) (branches (updateBranch t ox oy s)).
Proof.
  intros step. induction t as [b IHb] using Branch_tree_ind. intros ox oy.
  pose proof (step b ox oy) as Hroot. revert Hroot.
  rewrite updateBranch_unfold. destruct b as [lv bx by_ ex ey len rot rc cs].
  simpl in *. intros Hroot. constructor; [exact Hroot|].
  apply Forall2_flat_map. clear Hroot.
  induction IHb as [|c cs' Hc Hcs IH]; simpl; constructor; auto.
Qed.

End UpdateFacts.

(** ** Building a tree *)

Section BuildFacts.

Context `{MathLib} {rng : Type} `{RandomSource rng}.

Lemma level_freshBranch (lv : Z) (g : rng) :
  level (fst (freshBranch lv g)) = lv.
Proof.
  unfold freshBranch, bind, ret.
  destruct (lv =? 1); name_draws; reflexivity.
Qed.

Lemma level_updateBranch (b : Branch) (ox oy s : float) :
  level (updateBranch b ox oy s) = level b.
Proof. destruct b; reflexivity. Qed.

(** [makeBranch] as the source writes it:
    [addChildren(updateBranch(new Branch({...}), x, y, speed), speed)]. *)
Lemma makeBranch_eq (lv : Z) (ox oy speed : float) (g : rng) :
  makeBranch lv ox oy speed g =
  (branch <- freshBranch lv ;;
   addChildren (updateBranch branch ox oy speed) speed) g.
Proof.
  rewrite makeBranch_equation_1. unfold bind at 2. unfold addChildren.
  destruct (freshBranch lv g) as [b g1]. cbn [fst snd].
  destruct (Z_ge_dec _ _) as [Hge|Hlt];
    destruct (Z.geb_spec (level (updateBranch b ox oy speed)) numLevels);
    try lia; reflexivity.
Qed.

(** The two cases of [addChildren] spelled out: at [numLevels] and beyond the
    positioned branch is returned as it is; below, two children are built
    one after the other from its end point, one level further down. *)
Lemma makeBranch_cases (lv : Z) (ox oy speed : float) (g : rng) :
  let fresh := freshBranch lv g in
  let branch := updateBranch (fst fresh) ox oy speed in
  let c0 := makeBranch (lv + 1) (endX branch) (endY branch) speed (snd fresh) in
  let c1 := makeBranch (lv + 1) (endX branch) (endY branch) speed (snd c0) in
  makeBranch lv ox oy speed g =
  if lv >=? numLevels then (branch, snd fresh)
  else (set_children branch [fst c0; fst c1], snd c1).
Proof.
  intros fresh branch c0 c1. rewrite makeBranch_eq. unfold bind at 1.
  unfold addChildren. subst c1 c0 branch fresh.
  pose proof (level_freshBranch lv g) as Hlv.
  destruct (freshBranch lv g) as [b g1]. cbn [fst snd] in *.
  rewrite level_updateBranch, Hlv.
  destruct (lv >=? numLevels); [reflexivity|].
  unfold childRange, mapM, bind, ret.
  destruct (makeBranch (lv + 1) _ _ speed g1) as [b0 g2]. cbn [fst snd].
  destruct (makeBranch (lv + 1) _ _ speed g2) as [b1 g3]. reflexivity.
Qed.

(** Induction along the recursion of [makeBranch]: downwards from
    [numLevels]. *)
Lemma level_down_ind (P : Z -> Prop) :
  (forall lv, numLevels <= lv -> P lv) ->
  (forall lv, lv < numLevels -> P (lv + 1) -> P lv) ->
  forall lv, P lv.
Proof.
  intros base step lv.
  remember (Z.to_nat (numLevels - lv)) as n eqn:Hn.
  revert lv Hn. induction n as [|n IHn]; intros lv Hn.
  - apply base. lia.
  - apply step; [lia|]. apply IHn. lia.
Qed.

(** The fields of the branch [makeBranch] returns, from the record it starts
    from. *)
Lemma makeBranch_root (lv : Z) (ox oy speed : float) (g : rng) :
  let fresh := fst (freshBranch lv g) in
  let t := fst (makeBranch lv ox oy speed g) in
  level t = lv /\ x t = ox /\ y t = oy /\
  length t = length fresh /\
  rotationChange t = rotationChange fresh /\
  rotation t = nextBranchRotation fresh speed /\
  endX t = (ox + length t * Math_cos (radians (rotation t)))%float /\
  endY t = (oy + length t * Math_sin (radians (rotation t)))%float.
Proof.
  intros fresh t. subst t. rewrite makeBranch_cases.
  pose proof (level_freshBranch lv g) as Hlv. fold fresh in Hlv.
  fold fresh. rewrite (updateBranch_unfold fresh).
  destruct (lv >=? numLevels); cbn; rewrite Hlv; repeat split; reflexivity.
Qed.

(** What [freshBranch] draws. *)
Lemma freshBranch_fields (lv : Z) (g : rng) :
  let g1 := if lv =? 1 then g else snd (integer 100 1500 g) in
  let fresh := fst (freshBranch lv g) in
  length fresh =
    (if lv =? 1 then 0%float
     else (1 / Z2F lv * Z2F (fst (integer 100 1500 g)))%float) /\
  rotation fresh = Z2F (fst (die 360 g1)) /\
  rotationChange fresh =
    (Z2F (fst (die 4 (snd (die 360 g1))))
     * Z2F (fst (pick signs (snd (die 4 (snd (die 360 g1)))))))%float /\
  children fresh = [].
Proof.
  unfold freshBranch, bind, ret.
  destruct (lv =? 1); cbn [fst snd].
  - destruct (die 360 g) as [seed g2]. cbn [fst snd].
    destruct (die 4 g2) as [change g3]. cbn [fst snd].
    destruct (pick signs g3) as [sg g4]. cbn. auto.
  - destruct (integer 100 1500 g) as [u g1]. cbn [fst snd].
    destruct (die 360 g1) as [seed g2]. cbn [fst snd].
    destruct (die 4 g2) as [change g3]. cbn [fst snd].
    destruct (pick signs g3) as [sg g4]. cbn. auto.
Qed.

(** A property of the branch [makeBranch] returns, whatever the level, the
    origin and the generator state, holds of every branch of a tree built:
    each one is the result of a call of [makeBranch] with the same speed. *)
Lemma makeBranch_Forall (P : Branch -> Prop) (speed : float) :
  (forall lv ox oy g, P (fst (makeBranch lv ox oy speed g))) ->
  forall lv ox oy g, Forall P (branches (fst (makeBranch lv ox oy speed g))).
Proof.
  intros root lv. induction lv as [lv Hge | lv Hlt IH] using level_down_ind;
    intros ox oy g; apply Forall_branches; (split; [apply root|]).
  - rewrite makeBranch_cases.
    destruct (Z.geb_spec lv numLevels); [|lia]. cbn [fst].
    rewrite updateBranch_unfold. cbn.
    destruct (freshBranch_fields lv g) as (_ & _ & _ & ->). constructor.
  - rewrite makeBranch_cases.
    destruct (Z.geb_spec lv numLevels); [lia|]. cbn.
    repeat constructor; apply IH.
Qed.

End BuildFacts.

(** ** Rotations that stay numbers *)

Section NumericFacts.

Context `{MathLib} {rng : Type} `{RandomSource rng}.

Lemma updateBranch_numeric (b : Branch) (ox oy s : float) :
  is_nan s = false -> numeric b -> numeric (updateBranch b ox oy s).
Proof.
  intros Hs (Hr & Hc & Hz). rewrite updateBranch_unfold. unfold numeric. cbn.
  split; [|split; assumption].
  apply wraparound_within, rotation_step_not_nan; assumption.
Qed.

Lemma updateBranch_tree_numeric (t : Branch) (ox oy s : float) :
  is_nan s = false ->
  Forall numeric (branches t) ->
  Forall numeric (branches (updateBranch t ox oy s)).
Proof.
  intros Hs Hall.
  pose proof (updateBranch_Forall2 (fun b b' => numeric b -> numeric b') s
                (fun b ox' oy' => updateBranch_numeric b ox' oy' s Hs)
                t ox oy) as Hrel.
  revert Hall. induction Hrel; intros Hall; inversion Hall; subst;
    constructor; auto.
Qed.

Lemma makeBranch_tree_numeric `{!DiceLaws} (lv : Z) (ox oy speed : float)
    (g : rng) :
  is_nan speed = false ->
  Forall numeric (branches (fst (makeBranch lv ox oy speed g))).
Proof.
  intros Hs. apply makeBranch_Forall. clear lv ox oy g. intros lv ox oy g.
  destruct (makeBranch_root lv ox oy speed g)
    as (_ & _ & _ & _ & Hrc & Hrot & _).
  destruct (freshBranch_fields lv g) as (_ & Hseed & Hchange & _).
  cbv zeta in *.
  assert (Hnum : is_finite (rotationChange (fst (freshBranch lv g))) = true /\
                 (rotationChange (fst (freshBranch lv g)) =? 0)%float = false).
  { rewrite Hchange.
    apply Z2F_change_numeric; [apply die_4 | apply pick_sign]. }
  unfold numeric. rewrite Hrc, Hrot, nextBranchRotation_wraparound.
  split; [|exact Hnum].
  apply wraparound_within, rotation_step_not_nan;
    try apply Hnum; try assumption.
  rewrite Hseed. apply Z2F_seed_finite, die_360.
Qed.

Lemma updates_tree_numeric (frames : list (float * float * float)) :
  Forall (fun f => is_nan (snd f) = false) frames ->
  forall t, Forall numeric (branches t) ->
            Forall numeric (branches (updates t frames)).
Proof.
  induction 1 as [|f frames Hf Hfs IH]; intros t Ht; simpl; [exact Ht|].
  apply IH, updateBranch_tree_numeric; assumption.
Qed.

End NumericFacts.

(** * The claims *)

Section EngineClaims.

Context `{MathLib}.

(** C1.  The rotation [updateBranch] stores is the wraparound of
    [rotation + rotationChange * speed]: 0 when that sum is above 360, 360
    when it is below 0, the sum itself otherwise; this holds at the branch
    updated and at every branch below it.  From 359 with change 4 at speed 1
    the result is 0, from 2 with change -4 it is 360, from 10 with change 4
    it is 14. *)
Theorem C1_rotation_wraparound :
  (forall branch speed,
     let nextRotation :=
       (rotation branch + rotationChange branch * speed)%float in
     nextBranchRotation branch speed =
       (if (360 <? nextRotation)%float then 0
        else if (nextRotation <? 0)%float then 360
        else nextRotation)%float /\
     nextBranchRotation branch speed = wraparound nextRotation) /\
  (forall t ox oy speed,
     Forall2 (fun b b' =>
                rotation b' =
                wraparound (rotation b + rotationChange b * speed)%float)
             (branches t) (branches (updateBranch t ox oy speed))) /\
  (forall lv bx by_ ex ey len cs,
     nextBranchRotation (mkBranch lv bx by_ ex ey len 359 4 cs) 1 = 0%float /\
     nextBranchRotation (mkBranch lv bx by_ ex ey len 2 (-4) cs) 1
       = 360%float /\
     nextBranchRotation (mkBranch lv bx by_ ex ey len 10 4 cs) 1 = 14%float).
Proof.
  split; [|split].
  - intros branch speed. split; reflexivity.
  - intros t ox oy speed. apply updateBranch_Forall2.
    intros b ox' oy'. rewrite updateBranch_unfold. reflexivity.
  - intros. repeat split; reflexivity.
Qed.

(** C2.  In every tree [updateBranch] returns, every branch has
    [endX = x + length * cos (radians rotation)] and
    [endY = y + length * sin (radians rotation)], with the rotation the
    branch stores: the stored end point is the very binary64 value of that
    expression, so the two sides agree within any tolerance, and [==] holds
    of them whenever the end point is a number. *)
Theorem C2_endpoint_geometry :
  forall t ox oy speed,
    Forall (fun b =>
              let ex :=
                (x b + length b * Math_cos (radians (rotation b)))%float in
              let ey :=
                (y b + length b * Math_sin (radians (rotation b)))%float in
              (endX b = ex /\ endY b = ey) /\
              (is_nan (endX b) || (endX b =? ex)%float = true) /\
              (is_nan (endY b) || (endY b =? ey)%float = true))
           (branches (updateBranch t ox oy speed)).
Proof.
  intros t ox oy speed. apply updateBranch_Forall.
  intros b ox' oy'. rewrite updateBranch_unfold. cbn.
  repeat split; unfold is_nan; apply orb_negb_l.
Qed.

(** C4.  In the tree [updateBranch] returns, the root stands at the origin
    given, and every branch hands the end point computed for it in this
    pass to each of its children as their [x, y], at every depth. *)
Theorem C4_origin_propagation :
  forall t ox oy speed,
    let t' := updateBranch t ox oy speed in
    x t' = ox /\ y t' = oy /\
    Forall (fun b =>
              endX b =
                (x b + length b * Math_cos (radians (rotation b)))%float /\
              endY b =
                (y b + length b * Math_sin (radians (rotation b)))%float /\
              Forall (fun c => x c = endX b /\ y c = endY b) (children b))
           (branches t').
Proof.
  intros t ox oy speed t'. subst t'. repeat split.
  - rewrite updateBranch_unfold. reflexivity.
  - rewrite updateBranch_unfold. reflexivity.
  - apply updateBranch_Forall. intros b ox' oy'.
    rewrite updateBranch_unfold. cbn. repeat split.
    apply Forall_map, Forall_forall. intros c _.
    rewrite updateBranch_unfold. cbn. split; reflexivity.
Qed.

(** C5.  However many times [updateBranch] is applied, with whatever origins
    and speeds, the tree keeps its shape: every branch keeps its [level],
    [length] and [rotationChange], and its children stay as many and in the
    same order. *)
Theorem C5_update_preserves_topology :
  forall t frames,
    same_shape t (updates t frames) /\
    Forall2 (fun b b' =>
               level b' = level b /\ length b' = length b /\
               rotationChange b' = rotationChange b /\
               List.length (children b') = List.length (children b))
            (branches t) (branches (updates t frames)).
Proof.
  intros t frames.
  pose proof (updates_same_shape frames t) as Hs.
  split; [exact Hs | apply same_shape_branches, Hs].
Qed.

End EngineClaims.

Section BuildClaims.

Context `{MathLib} {rng : Type} `{RandomSource rng}.

Lemma makeBranch_node (lv : Z) (ox oy speed : float) (g : rng) :
  let t := fst (makeBranch lv ox oy speed g) in
  (lv < numLevels ->
   exists g1 g2,
     children t =
       [fst (makeBranch (lv + 1) (endX t) (endY t) speed g1);
        fst (makeBranch (lv + 1) (endX t) (endY t) speed g2)]) /\
  (numLevels <= lv -> children t = []).
Proof.
  intros t. subst t. rewrite makeBranch_cases.
  destruct (Z.geb_spec lv numLevels) as [Hge|Hlt]; cbn [fst]; split;
    try lia; intros _.
  - rewrite updateBranch_unfold. cbn.
    destruct (freshBranch_fields lv g) as (_ & _ & _ & ->). reflexivity.
  - eexists _, _. reflexivity.
Qed.

Lemma makeBranch_depth (lv : Z) :
  forall ox oy speed g,
    let t := fst (makeBranch lv ox oy speed g) in
    depth t = S (Z.to_nat (numLevels - lv)) /\
    Forall (fun b => lv <= level b <= Z.max lv numLevels) (branches t).
Proof.
  induction lv as [lv Hge | lv Hlt IH] using level_down_ind;
    intros ox oy speed g t;
    destruct (makeBranch_node lv ox oy speed g) as [Hnode Hleaf];
    destruct (makeBranch_root lv ox oy speed g) as (Hlv & _);
    fold t in Hnode, Hleaf, Hlv.
  - specialize (Hleaf Hge). split.
    + destruct t; simpl in *. subst. simpl.
      replace (Z.to_nat (numLevels - lv)) with 0%nat by lia. reflexivity.
    + apply Forall_branches. rewrite Hleaf, Hlv. split; [lia | constructor].
  - destruct (Hnode Hlt) as (g1 & g2 & Hcs). split.
    + destruct t; simpl in *. subst. simpl.
      rewrite !(proj1 (IH _ _ _ _)).
      rewrite Nat.max_0_r, Nat.max_id.
      replace (numLevels - lv) with (Z.succ (numLevels - (lv + 1))) by lia.
      rewrite Z2Nat.inj_succ by lia. reflexivity.
    + apply Forall_branches. rewrite Hcs, Hlv. split; [lia|].
      repeat constructor;
        (eapply List.Forall_impl; [|apply (proj2 (IH _ _ _ _))]);
        cbv beta; intros b Hb; lia.
Qed.

(** C3.  In every tree [makeBranch] builds from level 1, the levels run from
    1 to [numLevels] = 8; a branch above the last level has exactly two
    children, each one level further down; a branch at the last level has
    none; and the tree is exactly [numLevels] levels deep. *)
Theorem C3_build_topology :
  forall ox oy speed g,
    let t := fst (makeBranch 1 ox oy speed g) in
    level t = 1 /\
    Forall (fun b =>
              1 <= level b <= numLevels /\
              (level b < numLevels ->
               List.length (children b) = 2%nat /\
               Forall (fun c => level c = level b + 1) (children b)) /\
              (level b = numLevels -> children b = []))
           (branches t) /\
    Z.of_nat (depth t) = numLevels /\ numLevels = 8.
Proof.
  intros ox oy speed g t.
  destruct (makeBranch_depth 1 ox oy speed g) as [Hd Hlv]. fold t in Hd, Hlv.
  split; [apply (makeBranch_root 1 ox oy speed g)|].
  split; [|split; [rewrite Hd; reflexivity | reflexivity]].
  assert (Hall : Forall (fun b =>
             (level b < numLevels ->
              List.length (children b) = 2%nat /\
              Forall (fun c => level c = level b + 1) (children b)) /\
             (level b = numLevels -> children b = [])) (branches t)).
  { apply makeBranch_Forall. intros lv ox' oy' g'.
    destruct (makeBranch_node lv ox' oy' speed g') as [Hnode Hleaf].
    destruct (makeBranch_root lv ox' oy' speed g') as (Hl & _).
    rewrite Hl. split.
    - intros Hlt. destruct (Hnode Hlt) as (g1 & g2 & ->). split; [reflexivity|].
      repeat constructor; apply makeBranch_root.
    - intros ->. apply Hleaf. lia. }
  rewrite Forall_forall in *. intros b Hb. split; [|apply Hall, Hb].
  specialize (Hlv b Hb). cbv beta in Hlv. unfold numLevels in *. lia.
Qed.

Lemma updates_snoc (t : Branch) (frames : list (float * float * float))
    (ox oy speed : float) :
  updates t (frames ++ [(ox, oy, speed)]) =
  updateBranch (updates t frames) ox oy speed.
Proof. unfold updates. rewrite fold_left_app. reflexivity. Qed.

(** C9.  Already in the tree [makeBranch] returns, before any update pass,
    the root stands at the origin given, every child has for [x, y] the end
    point of its parent, and every branch stores its rotation seed (the
    [die(360)] draw made for it) advanced by one step:
    [wraparound (seed + rotationChange * speed)]. *)
Theorem C9_build_is_positioned_and_advanced :
  forall lv ox oy speed g,
    let t := fst (makeBranch lv ox oy speed g) in
    x t = ox /\ y t = oy /\
    Forall (fun b =>
              Forall (fun c => x c = endX b /\ y c = endY b) (children b) /\
              exists g' : rng,
                let g1 := if level b =? 1 then g'
                          else snd (integer 100 1500 g') in
                let seed := Z2F (fst (die 360 g1)) in
                rotation (fst (freshBranch (level b) g')) = seed /\
                rotation b =
                  wraparound (seed + rotationChange b * speed)%float)
           (branches t).
Proof.
  intros lv ox oy speed g t. subst t.
  split; [apply makeBranch_root|]. split; [apply makeBranch_root|].
  apply makeBranch_Forall. clear. intros lv ox oy g. split.
  - destruct (makeBranch_node lv ox oy speed g) as [Hnode Hleaf].
    destruct (Z_lt_le_dec lv numLevels) as [Hlt|Hge].
    + destruct (Hnode Hlt) as (g1 & g2 & ->).
      repeat constructor; apply makeBranch_root.
    + rewrite (Hleaf Hge). constructor.
  - exists g.
    destruct (makeBranch_root lv ox oy speed g)
      as (-> & _ & _ & _ & -> & -> & _).
    destruct (freshBranch_fields lv g) as (_ & Hseed & _).
    cbv zeta in *. split; [exact Hseed|].
    rewrite nextBranchRotation_wraparound, Hseed. reflexivity.
Qed.

(** C6, as the code has it.  In a tree [makeBranch] built, after any number
    of updates, and in any tree [updateBranch] returns, every branch stores
    a rotation that is never below 0 and never above 360.  When the random
    source keeps its dice in their ranges ([die(360)] from 1 to 360,
    [die(4)] from 1 to 4, [pick] one of 1 and -1) and every speed is a number,
    the rotation in a tree built and then updated any number of times is a
    number too, of the closed interval from 0 to 360: 360 itself is what a
    sum below 0 is reset to. *)
Theorem C6_rotation_in_closed_interval :
  (forall lv ox oy speed g frames,
     Forall (fun b => rotation_ok (rotation b))
            (branches (updates (fst (makeBranch lv ox oy speed g)) frames))) /\
  (forall t ox oy speed,
     Forall (fun b => rotation_ok (rotation b))
            (branches (updateBranch t ox oy speed))) /\
  (DiceLaws ->
   forall lv ox oy speed g frames,
     is_nan speed = false ->
     Forall (fun f => is_nan (snd f) = false) frames ->
     Forall (fun b => within_0_360 (rotation b) = true)
            (branches (updates (fst (makeBranch lv ox oy speed g)) frames))).
Proof.
  assert (Hupd : forall t ox oy speed,
             Forall (fun b => rotation_ok (rotation b))
                    (branches (updateBranch t ox oy speed))).
  { intros t ox oy speed. apply updateBranch_Forall. intros b ox' oy'.
    rewrite updateBranch_unfold. cbn. apply wraparound_ok. }
  split; [|split; [exact Hupd|]].
  - intros lv ox oy speed g frames.
    destruct frames as [|f frames] using rev_ind.
    + apply makeBranch_Forall. clear. intros lv ox oy g.
      destruct (makeBranch_root lv ox oy speed g)
        as (_ & _ & _ & _ & _ & -> & _).
      apply wraparound_ok.
    + destruct f as [[fx fy] fs]. rewrite updates_snoc. apply Hupd.
  - intros Hlaws lv ox oy speed g frames Hspeed Hframes.
    eapply List.Forall_impl;
      [|apply updates_tree_numeric;
        [exact Hframes | apply makeBranch_tree_numeric, Hspeed]].
    intros b Hb. apply Hb.
Qed.

(** C7, as the code has it.  In a tree [makeBranch] built, a branch of
    level 1 has length 0, and a branch of level 2 or more has length
    [(1 / level) * U] for a draw [U] of [integer(100, 1500)], an integer of
    the closed range from 100 to 1500, so that down to level 8 the length is
    above 0 and at most 750; no update changes a length.  With
    length 0 the root built at level 1 ends where it starts, [endX == x] and
    [endY == y], whatever its rotation, as long as the origin is a number
    and the cosine and sine are finite. *)
Theorem C7_length_fixed_at_creation `{!RandomLaws} :
  forall lv ox oy speed g,
    let t := fst (makeBranch lv ox oy speed g) in
    Forall (fun b =>
              (level b = 1 -> length b = 0%float) /\
              (2 <= level b ->
               exists g' : rng,
                 let U := fst (integer 100 1500 g') in
                 100 <= U <= 1500 /\
                 length b = (1 / Z2F (level b) * Z2F U)%float) /\
              (2 <= level b <= numLevels ->
               (0 <? length b)%float = true /\
               (length b <=? 750)%float = true))
           (branches t) /\
    (forall frames,
       Forall2 (fun b b' => length b' = length b)
               (branches t) (branches (updates t frames))) /\
    (lv = 1 ->
     is_nan ox = false -> is_nan oy = false ->
     is_finite (Math_cos (radians (rotation t))) = true ->
     is_finite (Math_sin (radians (rotation t))) = true ->
     length t = 0%float /\
     (endX t =? x t)%float = true /\ (endY t =? y t)%float = true).
Proof.
  intros lv ox oy speed g t. split; [|split].
  - apply makeBranch_Forall. clear lv ox oy g t. intros lv ox oy g.
    destruct (makeBranch_root lv ox oy speed g) as (-> & _ & _ & -> & _).
    destruct (freshBranch_fields lv g) as (-> & _). split; [|split].
    + intros ->. reflexivity.
    + intros Hlv. exists g. cbv zeta. split; [apply integer_100_1500|].
      destruct (Z.eqb_spec lv 1); [lia | reflexivity].
    + intros Hlv. destruct (Z.eqb_spec lv 1); [lia|].
      apply length_draw_bounds; [exact Hlv | apply integer_100_1500].
  - intros frames.
    eapply Forall2_impl; [apply same_shape_branches, updates_same_shape|].
    cbv beta. intros b b' (_ & Hlen & _). exact Hlen.
  - intros -> Hox Hoy Hcos Hsin.
    destruct (makeBranch_root 1 ox oy speed g)
      as (_ & Hx & Hy & Hlen & _ & _ & HeX & HeY).
    fold t in Hx, Hy, Hlen, HeX, HeY.
    destruct (freshBranch_fields 1 g) as (Hfresh & _).
    cbv zeta in Hfresh. rewrite Hfresh in Hlen. cbn in Hlen.
    split; [exact Hlen|].
    rewrite HeX, HeY, Hx, Hy, Hlen.
    split; apply add_zero_eqb; auto using mul_zero_finite.
Qed.

End BuildClaims.

Section ReducerClaims.

Context `{MathLib} {rng : Type} `{RandomSource rng}.

Variable window : Window.

(** The speed a [MOVE] action sets, from the viewport size in the state. *)
Lemma reducer_MOVE (state : State) (w h ax ay : float) (g : rng) :
  state !! "windowWidth" = Some (VNum w) ->
  state !! "windowHeight" = Some (VNum h) ->
  let xDist := (ax - w / 2)%float in
  let yDist := (ay - h / 2)%float in
  let dist := Math_sqrt (xDist * xDist + yDist * yDist)%float in
  let factor := (if xDist <? 0 then - (w / 3) else w / 3)%float in
  reducer window state (MOVE ax ay) g =
  (Some (<["speed" := VNum (dist / factor)%float]> state), g).
Proof.
  intros Hw Hh. cbv zeta. unfold reducer, ret, get. rewrite Hw, Hh.
  cbn [toNumber].
  destruct (ax - w / 2 <? 0)%float;
    [rewrite mul_minus_one | rewrite mul_one]; reflexivity.
Qed.

(** C8.  A [MOVE] at [(x, y)] sets the speed to [dist / factor], where [dist]
    is the Euclidean distance from the viewport centre to [(x, y)] and
    [factor] is a third of the viewport width, negated when [x] is left of
    the centre.  On a viewport 800 wide, at the height of the centre, ten
    pixels left of the centre the speed is negative, ten pixels right of it
    the speed is positive. *)
Theorem C8_pointer_move_speed :
  forall (state : State) (w h ax ay : float) (g : rng),
    state !! "windowWidth" = Some (VNum w) ->
    state !! "windowHeight" = Some (VNum h) ->
    let xDist := (ax - w / 2)%float in
    let yDist := (ay - h / 2)%float in
    let dist := Math_sqrt (xDist * xDist + yDist * yDist)%float in
    let factor := (if xDist <? 0 then - (w / 3) else w / 3)%float in
    let speed := (dist / factor)%float in
    reducer window state (MOVE ax ay) g =
      (Some (<["speed" := VNum speed]> state), g) /\
    (w = 800%float -> is_finite (h / 2) = true -> ay = (h / 2)%float ->
     (ax = (800 / 2 - 10)%float -> (speed <? 0)%float = true) /\
     (ax = (800 / 2 + 10)%float -> (0 <? speed)%float = true)).
Proof.
  intros state w h ax ay g Hw Hh xDist yDist dist factor speed.
  split; [apply reducer_MOVE; assumption|].
  intros -> Hfin ->. subst speed factor dist xDist yDist.
  rewrite (sub_diag_finite _ Hfin).
  split; intros ->; vm_compute; reflexivity.
Qed.


End ReducerClaims.

(** * The claims at concrete inputs *)

Lemma scriptedRandom_dice : @DiceLaws (list Z) scriptedRandom.
Proof.
  split; intros g; unfold die, pick, scriptedRandom, scripted_next;
    destruct g as [|z g]; cbn [fst]; unfold clamp; try lia.
  - left. reflexivity.
  - destruct (Z.to_nat z) as [|[|n]]; simpl; [left | right | left];
      try reflexivity.
    destruct n; reflexivity.
Qed.

Lemma scriptedRandom_laws : @RandomLaws (list Z) scriptedRandom.
Proof.
  split; [exact scriptedRandom_dice|].
  intros g. unfold integer, scriptedRandom, scripted_next.
  destruct g as [|z g]; cbn [fst]; unfold clamp; lia.
Qed.

Example sample_tree_size :
  List.length (branches sample_tree) = 255%nat /\ depth sample_tree = 8%nat.
Proof. vm_compute. split; reflexivity. Qed.

(** The first [INIT] of the page ([speed: 1]) on the empty store, then a
    frame; a frame before any [INIT] finds no tree. *)
Example sample_init :
  let init := fst (@reducer sampleMath (list Z) scriptedRandom sample_window
                     ∅ (INIT (Some 1%float)) [2; 4; 1]) in
  option_map (fun st => (get st "width", get st "height", get st "speed",
                         get st "windowWidth"))
             init
  = Some (VNum 2000, VNum 1500, VNum 1, VNum 800) /\
  option_map (fun st => get st "tree") init = Some (VBranch sample_tree) /\
  fst (@reducer sampleMath (list Z) scriptedRandom sample_window
         ∅ NEXT_FRAME []) = None.
Proof. vm_compute. repeat split; reflexivity. Qed.

Example sample_store_init :
  fst (@reducer sampleMath (list Z) scriptedRandom sample_window
         ∅ (INIT (Some 1%float)) [2; 4; 1]) = Some sample_store.
Proof. vm_compute. reflexivity. Qed.

Example sample_frame :
  rotation sample_tree = 360%float /\
  rotation (@updateBranch sampleMath sample_tree 1000 750 1) = 356%float /\
  rotation (@updateBranch sampleMath sample_tree 1000 750 (-1)) = 0%float.
Proof. vm_compute. repeat split; reflexivity. Qed.

(** C6 as stated fails: this root draws seed 2 and change -4, the sum -2 is
    below 0, and the rotation stored is 360, which is not below 360. *)
Lemma C6_counterexample :
  rotation sample_tree = 360%float /\
  (rotation sample_tree <? 360)%float = false /\
  within_0_360 (rotation sample_tree) = true.
Proof. vm_compute. repeat split; reflexivity. Qed.

(** C6 at the sample tree, after a frame at speed 1 and one at speed -2.5:
    every rotation is in the closed interval. *)
Lemma C6_witness :
  Forall (fun b => within_0_360 (rotation b) = true)
         (branches (@updates sampleMath sample_tree
                      [(1000, 750, 1); (1000, 750, -2.5)]%float)).
Proof.
  apply (proj2 (proj2 (@C6_rotation_in_closed_interval sampleMath (list Z)
                         scriptedRandom)) scriptedRandom_dice);
    [reflexivity | repeat constructor].
Defined.

(** C7 at the sample tree: the scripted source keeps the laws, the origin is
    a number, and the sample cosine and sine of the root's rotation are
    finite. *)
Lemma C7_witness :
  length sample_tree = 0%float /\
  (endX sample_tree =? x sample_tree)%float = true /\
  (endY sample_tree =? y sample_tree)%float = true.
Proof.
  apply (@C7_length_fixed_at_creation sampleMath (list Z) scriptedRandom
           scriptedRandom_laws 1 1000 750 1 [2; 4; 1]);
    vm_compute; reflexivity.
Defined.

(** C7 as stated fails: the scripted source keeps the ranges of the library,
    the first child of this root is of level 2 and draws 1500, its length
    is 750, and no draw below 1500 gives that length. *)
Lemma C7_counterexample :
  let b := nth 1 (branches sample_long_tree) sample_long_tree in
  @RandomLaws (list Z) scriptedRandom /\
  fst (@integer (list Z) scriptedRandom 100 1500 [1500]) = 1500 /\
  level b = 2 /\
  length b = 750%float /\
  length b = (1 / Z2F (level b) * Z2F 1500)%float /\
  ~ exists U, 100 <= U < 1500 /\
              length b = (1 / Z2F (level b) * Z2F U)%float.
Proof.
  intros b.
  assert (Hlv : level b = 2) by (vm_compute; reflexivity).
  assert (Hlen : length b = 750%float) by (vm_compute; reflexivity).
  split; [exact scriptedRandom_laws|]. split; [reflexivity|].
  split; [exact Hlv|]. split; [exact Hlen|].
  rewrite Hlv, Hlen, !Z2F_Z2F_prim by lia.
  split; [vm_compute; reflexivity|].
  intros (U & HU & Heq). rewrite Z2F_Z2F_prim in Heq by lia.
  pose proof (all_from_spec
                (fun z => negb (Leibniz.eqb 750
                                  (1 / Z2F_prim 2 * Z2F_prim z)))
                1400 100) as Hall.
  assert (Hne : negb (Leibniz.eqb 750 (1 / Z2F_prim 2 * Z2F_prim U)) = true)
    by (apply Hall; [vm_compute; reflexivity | lia]).
  rewrite <- Heq in Hne.
  rewrite (proj2 (Leibniz.eqb_spec 750 750) eq_refl) in Hne. discriminate.
Qed.

(** C8 at the sample state: 800 by 600, the pointer at the height of the
    centre, ten pixels to its left and ten to its right. *)
Lemma C8_witness :
  (exists speed,
     fst (@reducer sampleMath (list Z) scriptedRandom sample_window
            sample_state (MOVE (800 / 2 - 10) (600 / 2)) [])
     = Some (<["speed" := VNum speed]> sample_state) /\
     (speed <? 0)%float = true) /\
  (exists speed,
     fst (@reducer sampleMath (list Z) scriptedRandom sample_window
            sample_state (MOVE (800 / 2 + 10) (600 / 2)) [])
     = Some (<["speed" := VNum speed]> sample_state) /\
     (0 <? speed)%float = true).
Proof.
  split.
  - destruct (@C8_pointer_move_speed sampleMath (list Z) scriptedRandom
                sample_window sample_state 800 600 (800 / 2 - 10) (600 / 2) []
                eq_refl eq_refl) as [Hmove Hsign].
    eexists. rewrite Hmove. split; [reflexivity|].
    apply Hsign; reflexivity.
  - destruct (@C8_pointer_move_speed sampleMath (list Z) scriptedRandom
                sample_window sample_state 800 600 (800 / 2 + 10) (600 / 2) []
                eq_refl eq_refl) as [Hmove Hsign].
    eexists. rewrite Hmove. split; [reflexivity|].
    apply Hsign; reflexivity.
Defined.



(** * The renderer and the page *)

(** ** The renderer, level by level *)

Lemma renderLevel_eq (lv : Z) (bs : list Branch) :
  renderLevel lv bs =
  renderPass lv bs ++
  (if Nat.eqb (List.length (flat_map children bs)) 0 then []
   else renderLevel (lv + 1) (flat_map children bs)).
Proof.
  rewrite renderLevel_equation_1. cbv zeta.
  destruct (Nat.eq_dec _ _) as [Hz|Hnz].
  - rewrite Hz. reflexivity.
  - apply Nat.eqb_neq in Hnz. rewrite Hnz. reflexivity.
Qed.

Lemma flat_map_flat_map {A B C : Type} (f : A -> list B) (g : B -> list C)
    (l : list A) :
  flat_map g (flat_map f l) = flat_map (fun a => flat_map g (f a)) l.
Proof.
  induction l as [|a l IH]; simpl; [reflexivity|].
  rewrite flat_map_app, IH. reflexivity.
Qed.

Lemma flat_map_map {A B C : Type} (f : A -> B) (g : B -> list C)
    (l : list A) :
  flat_map g (map f l) = flat_map (fun a => g (f a)) l.
Proof. induction l as [|a l IH]; simpl; congruence. Qed.

Lemma flat_map_singleton {A : Type} (l : list A) :
  flat_map (fun a => [a]) l = l.
Proof. induction l as [|a l IH]; simpl; congruence. Qed.

Lemma forest_depth_children (bs : list Branch) :
  bs <> [] ->
  forest_depth bs = S (forest_depth (flat_map children bs)).
Proof.
  unfold forest_depth. induction bs as [|b bs IH]; [congruence|]. intros _.
  simpl. rewrite map_app, list_max_app.
  destruct b as [? ? ? ? ? ? ? ? cs]. simpl.
  destruct bs as [|b' bs]; simpl in *.
  - rewrite !Nat.max_0_r. reflexivity.
  - rewrite IH by congruence. lia.
Qed.

(** [renderLevel] without its recursion: one pass per level of the trees
    given, from the top down, each over the branches that many steps below
    the roots. *)
Lemma renderLevel_passes (n : nat) :
  forall lv bs,
    bs <> [] -> forest_depth bs = n ->
    renderLevel lv bs =
    flat_map (fun k => renderPass (lv + Z.of_nat k) (flat_map (at_depth k) bs))
             (seq 0 n).
Proof.
  induction n as [|n IH]; intros lv bs Hne Hd.
  - rewrite (forest_depth_children bs Hne) in Hd. discriminate.
  - rewrite renderLevel_eq. cbn [seq flat_map].
    rewrite Z.add_0_r. cbn [at_depth]. rewrite flat_map_singleton. f_equal.
    rewrite (forest_depth_children bs Hne) in Hd. injection Hd as Hd.
    destruct (flat_map children bs) as [|c kids] eqn:Hkids.
    + simpl in Hd. subst n. reflexivity.
    + cbn [List.length Nat.eqb].
      rewrite (IH (lv + 1) (c :: kids)) by (congruence || assumption).
      rewrite <- seq_shift, flat_map_map.
      apply flat_map_ext. intros k. f_equal; [lia|].
      cbn [at_depth]. rewrite <- Hkids, flat_map_flat_map. reflexivity.
Qed.

(** ** Every branch in one pass *)

Lemma depth_child_le (b c : Branch) :
  In c (children b) -> (S (depth c) <= depth b)%nat.
Proof.
  intros Hin. destruct b as [? ? ? ? ? ? ? ? cs]. simpl in *.
  apply le_n_S.
  assert (Hall : Forall (fun d => (d <= list_max (map depth cs))%nat)
                        (map depth cs))
    by (apply list_max_le; reflexivity).
  rewrite List.Forall_forall in Hall. apply Hall, in_map, Hin.
Qed.

Lemma flat_map_nil {A B : Type} (f : A -> list B) (l : list A) :
  (forall a, In a l -> f a = []) -> flat_map f l = [].
Proof.
  induction l as [|a l IH]; intros Hf; simpl; [reflexivity|].
  rewrite (Hf a) by (left; reflexivity). apply IH.
  intros a' Ha'. apply Hf. right. exact Ha'.
Qed.

Lemma Permutation_flat_map_app {A B : Type} (f g : A -> list B) (l : list A) :
  Permutation (flat_map (fun a => f a ++ g a) l)
              (flat_map f l ++ flat_map g l).
Proof.
  induction l as [|a l IH]; simpl; [constructor|].
  rewrite IH, <- !app_assoc. apply Permutation_app_head.
  rewrite !app_assoc. apply Permutation_app_tail, Permutation_app_comm.
Qed.

Lemma Permutation_flat_map_swap {A B C : Type} (f : A -> B -> list C)
    (ks : list A) (cs : list B) :
  Permutation (flat_map (fun k => flat_map (f k) cs) ks)
              (flat_map (fun c => flat_map (fun k => f k c) ks) cs).
Proof.
  induction cs as [|c cs IH]; simpl.
  - rewrite flat_map_nil by reflexivity. constructor.
  - rewrite Permutation_flat_map_app. apply Permutation_app_head, IH.
Qed.

Lemma Permutation_flat_map_pointwise {A B : Type} (f g : A -> list B)
    (l : list A) :
  Forall (fun a => Permutation (f a) (g a)) l ->
  Permutation (flat_map f l) (flat_map g l).
Proof.
  induction 1; simpl; [constructor | apply Permutation_app; assumption].
Qed.

(** The levels of a tree, one after the other, hold each branch of the tree
    once. *)
Lemma levels_Permutation (t : Branch) :
  forall n, (depth t <= n)%nat ->
            Permutation (flat_map (fun k => at_depth k t) (seq 0 n))
                        (branches t).
Proof.
  induction t as [b IHb] using Branch_tree_ind. intros n Hn.
  destruct n as [|n]; [destruct b; simpl in Hn; lia|].
  cbn [seq flat_map at_depth]. rewrite <- seq_shift, flat_map_map.
  destruct b as [lv bx by_ ex ey len rot rc cs] eqn:Hb.
  cbn [branches children app]. constructor. cbn [at_depth children].
  rewrite Permutation_flat_map_swap.
  apply Permutation_flat_map_pointwise.
  simpl in IHb. rewrite List.Forall_forall in *. intros c Hc.
  apply (IHb c Hc).
  pose proof (depth_child_le b c) as Hle. rewrite Hb in Hle.
  specialize (Hle Hc). lia.
Qed.

(** ** What a drawing shows *)

Lemma hands_of_hands (bs : list Branch) (rest : list Cmd) :
  hands_of (flat_map handPath bs ++ rest)
  = map hand bs ++ hands_of rest.
Proof.
  induction bs as [|b bs IH]; [reflexivity|].
  change (flat_map handPath (b :: bs) ++ rest)
    with (MoveTo (x b) (y b) :: LineTo (endX b) (endY b)
            :: (flat_map handPath bs ++ rest)).
  cbn [map hands_of]. rewrite IH. reflexivity.
Qed.

Lemma hands_of_gears (bs : list Branch) (rest : list Cmd) :
  hands_of (flat_map gearPath bs ++ rest)
  = hands_of rest.
Proof.
  induction bs as [|b bs IH]; [reflexivity|].
  change (flat_map gearPath (b :: bs) ++ rest)
    with (MoveTo (x b) (y b)
            :: Arc (x b) (y b) (length b / 40) 0 (Math_PI * 2) false
            :: (flat_map gearPath bs ++ rest)).
  cbn [hands_of]. exact IH.
Qed.

Lemma hands_of_renderPass (lv : Z) (bs : list Branch) (rest : list Cmd) :
  hands_of (renderPass lv bs ++ rest) = map hand bs ++ hands_of rest.
Proof.
  unfold renderPass. cbv zeta.
  repeat (rewrite <- ?app_assoc, <- ?app_comm_cons; cbn [app hands_of]).
  rewrite hands_of_hands. cbn [hands_of].
  rewrite hands_of_gears. reflexivity.
Qed.

Lemma gears_of_hands (bs : list Branch) (rest : list Cmd) :
  gears_of (flat_map handPath bs ++ rest)
  = gears_of rest.
Proof.
  induction bs as [|b bs IH]; [reflexivity|].
  change (flat_map handPath (b :: bs) ++ rest)
    with (MoveTo (x b) (y b) :: LineTo (endX b) (endY b)
            :: (flat_map handPath bs ++ rest)).
  cbn [gears_of]. exact IH.
Qed.

Lemma gears_of_gears (bs : list Branch) (rest : list Cmd) :
  gears_of (flat_map gearPath bs ++ rest)
  = map gear bs ++ gears_of rest.
Proof.
  induction bs as [|b bs IH]; [reflexivity|].
  change (flat_map gearPath (b :: bs) ++ rest)
    with (MoveTo (x b) (y b)
            :: Arc (x b) (y b) (length b / 40) 0 (Math_PI * 2) false
            :: (flat_map gearPath bs ++ rest)).
  cbn [map gears_of]. rewrite IH. reflexivity.
Qed.

Lemma gears_of_renderPass (lv : Z) (bs : list Branch) (rest : list Cmd) :
  gears_of (renderPass lv bs ++ rest) = map gear bs ++ gears_of rest.
Proof.
  unfold renderPass. cbv zeta.
  repeat (rewrite <- ?app_assoc, <- ?app_comm_cons; cbn [app gears_of]).
  rewrite gears_of_hands. cbn [gears_of].
  rewrite gears_of_gears. reflexivity.
Qed.

Lemma hands_of_passes (f : nat -> Z) (g : nat -> list Branch) (ks : list nat) :
  hands_of (flat_map (fun k => renderPass (f k) (g k)) ks)
  = flat_map (fun k => map hand (g k)) ks.
Proof.
  induction ks as [|k ks IH]; [reflexivity|].
  cbn [flat_map]. rewrite hands_of_renderPass, IH. reflexivity.
Qed.

Lemma gears_of_passes (f : nat -> Z) (g : nat -> list Branch) (ks : list nat) :
  gears_of (flat_map (fun k => renderPass (f k) (g k)) ks)
  = flat_map (fun k => map gear (g k)) ks.
Proof.
  induction ks as [|k ks IH]; [reflexivity|].
  cbn [flat_map]. rewrite gears_of_renderPass, IH. reflexivity.
Qed.

Lemma map_flat_map {A B C : Type} (f : B -> C) (g : A -> list B) (l : list A) :
  flat_map (fun a => map f (g a)) l = map f (flat_map g l).
Proof.
  induction l as [|a l IH]; simpl; [reflexivity|].
  rewrite map_app, IH. reflexivity.
Qed.

(** The drawing of a tree, pass by pass. *)
Lemma renderLevel_tree (t : Branch) :
  renderLevel 1 [t] =
  flat_map (fun k => renderPass (1 + Z.of_nat k) (at_depth k t))
           (seq 0 (depth t)).
Proof.
  rewrite (renderLevel_passes (depth t) 1 [t]).
  - apply flat_map_ext. intros k. cbn [flat_map]. rewrite app_nil_r.
    reflexivity.
  - discriminate.
  - unfold forest_depth. simpl. apply Nat.max_0_r.
Qed.

(** ** Shapes, levels and sizes *)

Lemma same_shape_depth (t : Branch) :
  forall t', same_shape t t' -> depth t' = depth t.
Proof.
  induction t as [b IHb] using Branch_tree_ind. intros t' Hs.
  inversion Hs as [? ? _ _ _ Hc]; subst.
  destruct b as [? ? ? ? ? ? ? ? cs], t' as [? ? ? ? ? ? ? ? cs'].
  simpl in *. f_equal.
  assert (Hmap : map depth cs' = map depth cs).
  { clear Hs. induction Hc as [|c c' cs1 cs1' Hcc Hcs IH]; [reflexivity|].
    inversion IHb as [|? ? Hc1 Hcs1]; subst. simpl.
    rewrite (Hc1 c' Hcc), (IH Hcs1). reflexivity. }
  rewrite Hmap. reflexivity.
Qed.

Lemma same_shape_at_depth (k : nat) :
  forall t t', same_shape t t' ->
               Forall2 same_shape (at_depth k t) (at_depth k t').
Proof.
  induction k as [|k IH]; intros t t' Hs.
  - cbn [at_depth]. constructor; [exact Hs | constructor].
  - inversion Hs as [? ? _ _ _ Hc]; subst. cbn [at_depth].
    apply Forall2_flat_map.
    induction Hc; constructor; auto.
Qed.

Lemma same_shape_size (t t' : Branch) :
  same_shape t t' ->
  List.length (branches t') = List.length (branches t).
Proof.
  intros Hs. pose proof (same_shape_branches t t' Hs) as Hall.
  apply Forall2_length in Hall. symmetry. exact Hall.
Qed.

Lemma same_shape_level (t t' : Branch) : same_shape t t' -> level t' = level t.
Proof. intros Hs. inversion Hs; assumption. Qed.

(** In a connected tree every branch but the root starts where a branch one
    level up ends. *)
Lemma connected_at_depth (k : nat) :
  forall t, connected t ->
            forall c, In c (at_depth (S k) t) ->
                      exists b, In b (at_depth k t) /\
                                x c = endX b /\ y c = endY b.
Proof.
  induction k as [|k IH]; intros t Ht c Hc.
  - cbn [at_depth] in Hc. rewrite flat_map_singleton in Hc.
    exists t. split; [left; reflexivity|].
    unfold connected in Ht. apply Forall_branches in Ht.
    destruct Ht as [Hroot _]. rewrite List.Forall_forall in Hroot.
    apply Hroot, Hc.
  - change (at_depth (S (S k)) t)
      with (flat_map (at_depth (S k)) (children t)) in Hc.
    apply in_flat_map in Hc. destruct Hc as (c0 & Hc0 & Hc).
    unfold connected in Ht. apply Forall_branches in Ht.
    destruct Ht as [_ Hkids]. rewrite List.Forall_forall in Hkids.
    destruct (IH c0 (Hkids c0 Hc0) c Hc) as (b & Hb & Hxy).
    exists b. split; [|exact Hxy].
    change (at_depth (S k) t) with (flat_map (at_depth k) (children t)).
    apply in_flat_map. exists c0. split; assumption.
Qed.

Section ShapeFacts.

Context `{MathLib} {rng : Type} `{RandomSource rng}.

Lemma updateBranch_connected (t : Branch) (ox oy s : float) :
  connected (updateBranch t ox oy s).
Proof.
  apply updateBranch_Forall. intros b ox' oy'.
  rewrite updateBranch_unfold. cbn.
  apply Forall_map, List.Forall_forall. intros c _.
  rewrite updateBranch_unfold. cbn. split; reflexivity.
Qed.

Lemma makeBranch_children (lv : Z) (ox oy speed : float) (g : rng) :
  let t := fst (makeBranch lv ox oy speed g) in
  children t =
  if lv >=? numLevels then []
  else [fst (makeBranch (lv + 1) (endX t) (endY t) speed
               (snd (freshBranch lv g)));
        fst (makeBranch (lv + 1) (endX t) (endY t) speed
               (snd (makeBranch (lv + 1) (endX t) (endY t) speed
                       (snd (freshBranch lv g)))))].
Proof.
  cbv zeta. rewrite makeBranch_cases.
  destruct (lv >=? numLevels); cbn [fst].
  - rewrite updateBranch_unfold. cbn.
    destruct (freshBranch_fields lv g) as (_ & _ & _ & ->). reflexivity.
  - reflexivity.
Qed.

Lemma makeBranch_connected (lv : Z) (ox oy speed : float) (g : rng) :
  connected (fst (makeBranch lv ox oy speed g)).
Proof.
  apply makeBranch_Forall. clear. intros lv ox oy g.
  rewrite makeBranch_children. destruct (lv >=? numLevels); [constructor|].
  repeat constructor; apply makeBranch_root.
Qed.

(** The size of a tree built from a level: the levels left, each twice as
    wide as the one above. *)
Lemma makeBranch_at_depth (lv : Z) :
  forall ox oy speed g k,
    let t := fst (makeBranch lv ox oy speed g) in
    Forall (fun b => level b = lv + Z.of_nat k) (at_depth k t) /\
    List.length (at_depth k t) =
      if (k <=? Z.to_nat (numLevels - lv))%nat then (2 ^ k)%nat else 0%nat.
Proof.
  induction lv as [lv Hge | lv Hlt IH] using level_down_ind;
    intros ox oy speed g k t;
    pose proof (makeBranch_children lv ox oy speed g) as Hcs;
    destruct (makeBranch_root lv ox oy speed g) as (Hlv & _);
    fold t in Hcs, Hlv.
  - destruct (Z.geb_spec lv numLevels); [|lia].
    replace (Z.to_nat (numLevels - lv)) with 0%nat by lia.
    destruct k as [|k]; cbn [at_depth].
    + split; [repeat constructor; lia | reflexivity].
    + rewrite Hcs. split; [constructor | reflexivity].
  - destruct (Z.geb_spec lv numLevels); [lia|].
    destruct k as [|k]; cbn [at_depth].
    + split; [repeat constructor; lia | reflexivity].
    + rewrite Hcs. cbn [flat_map]. rewrite app_nil_r. split.
      * apply Forall_app. split;
          (eapply List.Forall_impl; [|apply (proj1 (IH _ _ _ _ k))]);
          cbv beta; intros b Hb; lia.
      * rewrite length_app, !(proj2 (IH _ _ _ _ k)).
        replace (Z.to_nat (numLevels - lv))
          with (S (Z.to_nat (numLevels - (lv + 1)))) by lia.
        change (S k <=? S ?n)%nat with (k <=? n)%nat.
        destruct (k <=? Z.to_nat (numLevels - (lv + 1)))%nat;
          [simpl; lia | reflexivity].
Qed.

Lemma makeBranch_size (lv : Z) :
  forall ox oy speed g,
    S (List.length (branches (fst (makeBranch lv ox oy speed g)))) =
    (2 ^ S (Z.to_nat (numLevels - lv)))%nat.
Proof.
  induction lv as [lv Hge | lv Hlt IH] using level_down_ind;
    intros ox oy speed g;
    pose proof (makeBranch_children lv ox oy speed g) as Hcs;
    cbv zeta in Hcs;
    destruct (fst (makeBranch lv ox oy speed g))
      as [blv bx by_ bex bey blen brot brc cs]; simpl in Hcs;
    cbn [branches children].
  - destruct (Z.geb_spec lv numLevels); [|lia]. subst cs.
    replace (Z.to_nat (numLevels - lv)) with 0%nat by lia. reflexivity.
  - destruct (Z.geb_spec lv numLevels); [lia|]. subst cs.
    cbn [flat_map List.length]. rewrite app_nil_r, length_app.
    replace (Z.to_nat (numLevels - lv))
      with (S (Z.to_nat (numLevels - (lv + 1)))) by lia.
    rewrite (Nat.pow_succ_r' 2 (S _)).
    repeat match goal with
           | |- context [List.length
                           (branches (fst (makeBranch (lv + 1) ?a ?b ?s ?g0)))] =>
               let E := fresh "E" in
               pose proof (IH a b s g0) as E;
               set (List.length
                      (branches (fst (makeBranch (lv + 1) a b s g0)))) in *
           end.
    lia.
Qed.

End ShapeFacts.

(** ** More binary64 facts *)

Lemma Prim2SF_nan : Prim2SF nan = S754_nan.
Proof. reflexivity. Qed.

(** There is one NaN. *)
Lemma is_nan_eq (a : float) : is_nan a = true -> a = nan.
Proof.
  intros Ha. apply Prim2SF_inj. rewrite Prim2SF_nan. apply is_nan_true, Ha.
Qed.

(** NaN goes through every operation. *)
Lemma add_nan_r (a : float) : (a + nan)%float = nan.
Proof.
  apply Prim2SF_inj. rewrite add_spec, Prim2SF_nan.
  destruct (Prim2SF a); reflexivity.
Qed.

Lemma add_nan_l (a : float) : (nan + a)%float = nan.
Proof.
  apply Prim2SF_inj. rewrite add_spec, Prim2SF_nan. reflexivity.
Qed.

Lemma sub_nan_r (a : float) : (a - nan)%float = nan.
Proof.
  apply Prim2SF_inj. rewrite sub_spec, Prim2SF_nan.
  destruct (Prim2SF a); reflexivity.
Qed.

Lemma mul_nan_r (a : float) : (a * nan)%float = nan.
Proof.
  apply Prim2SF_inj. rewrite mul_spec, Prim2SF_nan.
  destruct (Prim2SF a); reflexivity.
Qed.

Lemma div_nan_l (a : float) : (nan / a)%float = nan.
Proof.
  apply Prim2SF_inj. rewrite div_spec, Prim2SF_nan. reflexivity.
Qed.

(** [==] numbers compare alike with any third. *)
Lemma SFcompare_Eq_l (f1 f2 c : spec_float) :
  SFcompare f1 f2 = Some Eq -> SFcompare f1 c = SFcompare f2 c.
Proof.
  destruct f1 as [s1|s1| |s1 m1 e1], f2 as [s2|s2| |s2 m2 e2]; simpl;
    try discriminate;
    try (destruct s1; discriminate); try (destruct s2; discriminate).
  - intros _. destruct c; reflexivity.
  - destruct s1, s2; try discriminate; reflexivity.
  - intros Hc.
    assert (Hs : s1 = s2) by (destruct s1, s2; congruence).
    subst s2.
    assert (He : e1 = e2).
    { apply Z.compare_eq. destruct s1, (e1 ?= e2); congruence. }
    subst e2. rewrite Z.compare_refl in Hc.
    assert (Hm : m1 = m2).
    { apply Pos.compare_eq.
      change (PosDef.Pos.compare_cont Eq m1 m2) with (Pos.compare m1 m2) in Hc.
      destruct s1, (m1 ?= m2)%positive; simpl in Hc; congruence. }
    subst m2. reflexivity.
Qed.

Lemma SFcompare_Eq_r (f1 f2 c : spec_float) :
  SFcompare f1 f2 = Some Eq -> SFcompare c f1 = SFcompare c f2.
Proof.
  intros Heq.
  pose proof (SFcompare_Eq_l f1 f2 c Heq) as Hl.
  destruct (SFcompare c f1) as [c1|] eqn:H1, (SFcompare c f2) as [c2|] eqn:H2.
  - apply SFcompare_antisym in H1, H2. rewrite H1, H2 in Hl.
    injection Hl as Hl. destruct c1, c2; simpl in Hl; congruence.
  - apply SFcompare_antisym in H1. rewrite H1 in Hl.
    destruct c, f2; simpl in H2, Hl; congruence.
  - apply SFcompare_antisym in H2. rewrite H2 in Hl.
    destruct c, f1; simpl in H1, Hl; congruence.
  - reflexivity.
Qed.

Lemma eqb_SFcompare (a b : float) :
  (a =? b)%float = true -> SFcompare (Prim2SF a) (Prim2SF b) = Some Eq.
Proof.
  rewrite FloatAxioms.eqb_spec. unfold SFeqb.
  destruct (SFcompare _ _) as [[| |]|]; congruence.
Qed.

Lemma eqb_ltb_l (a b c : float) :
  (a =? b)%float = true -> (a <? c)%float = (b <? c)%float.
Proof.
  intros Heq. rewrite !FloatAxioms.ltb_spec. unfold SFltb.
  rewrite (SFcompare_Eq_l _ _ (Prim2SF c) (eqb_SFcompare a b Heq)).
  reflexivity.
Qed.

Lemma eqb_ltb_r (a b c : float) :
  (a =? b)%float = true -> (c <? a)%float = (c <? b)%float.
Proof.
  intros Heq. rewrite !FloatAxioms.ltb_spec. unfold SFltb.
  rewrite (SFcompare_Eq_r _ _ (Prim2SF c) (eqb_SFcompare a b Heq)).
  reflexivity.
Qed.

Lemma leb_ltb_false (a b : float) :
  (a <=? b)%float = true -> (b <? a)%float = false.
Proof.
  rewrite FloatAxioms.leb_spec, FloatAxioms.ltb_spec. unfold SFleb, SFltb.
  destruct (SFcompare (Prim2SF a) (Prim2SF b)) as [c|] eqn:Hc;
    [|discriminate].
  rewrite (SFcompare_antisym _ _ _ Hc). destruct c; simpl; congruence.
Qed.

(** A finite number times a zero is a zero. *)
Lemma mul_finite_zero (c s : float) :
  is_finite c = true -> (s =? 0)%float = true -> (c * s =? 0)%float = true.
Proof.
  intros Hc Hs. rewrite FloatAxioms.eqb_spec, Prim2SF_zero in Hs.
  rewrite FloatAxioms.eqb_spec, mul_spec, Prim2SF_zero.
  destruct (Prim2SF s) as [ss|ss| |ss ms es]; simpl in Hs;
    try discriminate; try (destruct ss; discriminate).
  destruct (is_finite_SF c Hc) as [[sc ->] | (sc & m & e & ->)]; reflexivity.
Qed.

(** Dividing by the opposite gives the opposite. *)
Lemma SF64div_opp_r (a b : spec_float) :
  SF64div a (SFopp b) = SFopp (SF64div a b).
Proof.
  destruct a as [sa|sa| |sa ma ea], b as [sb|sb| |sb mb eb]; simpl;
    try reflexivity; try (destruct sa, sb; reflexivity).
  unfold SF64div, SFdiv.
  destruct (SFdiv_core_binary prec emax (Z.pos ma) ea (Z.pos mb) eb)
    as [[mz ez] lz].
  rewrite binary_round_aux_opp. destruct sa, sb; reflexivity.
Qed.

Lemma div_opp_r (a b : float) : (a / - b)%float = (- (a / b))%float.
Proof.
  apply Prim2SF_inj.
  rewrite FloatAxioms.opp_spec, !div_spec, FloatAxioms.opp_spec.
  apply SF64div_opp_r.
Qed.

Lemma opp_nonneg_ltb (q : float) :
  SF_nonneg (Prim2SF q) -> (0 <? - q)%float = false.
Proof.
  rewrite FloatAxioms.ltb_spec, FloatAxioms.opp_spec, Prim2SF_zero.
  unfold SFltb.
  destruct (Prim2SF q) as [s|s| |s m e]; simpl; intros; subst; reflexivity.
Qed.

(** A frame at speed zero: the sum is the rotation again, and nothing
    wraps. *)
Lemma rotation_step_zero (r c s : float) :
  within_0_360 r = true -> is_finite c = true -> (s =? 0)%float = true ->
  wraparound (r + c * s) = (r + c * s)%float /\
  (r + c * s =? r)%float = true.
Proof.
  intros Hr Hc Hs.
  assert (Hn : is_nan r = false).
  { apply not_nan_is_nan. pose proof (within_0_360_finite r Hr) as Hf.
    destruct (Prim2SF r); simpl in Hf; try contradiction; discriminate. }
  assert (Heq : (r + c * s =? r)%float = true)
    by (apply add_zero_eqb; [exact Hn | apply mul_finite_zero; assumption]).
  split; [|exact Heq].
  unfold within_0_360 in Hr. apply andb_prop in Hr. destruct Hr as [H0 H360].
  unfold wraparound.
  rewrite (eqb_ltb_r _ _ 360 Heq), (leb_ltb_false _ _ H360).
  rewrite (eqb_ltb_l _ _ 0 Heq), (leb_ltb_false _ _ H0). reflexivity.
Qed.

(** ** The reducer, case by case *)

Section ReducerFacts.

Context `{MathLib} {rng : Type} `{RandomSource rng}.

Variable window : Window.

Lemma get_insert_eq (state : State) (key : string) (v : Value) :
  get (<[key := v]> state) key = v.
Proof. unfold get. rewrite lookup_insert_eq. reflexivity. Qed.

Lemma get_insert_ne (state : State) (key key' : string) (v : Value) :
  key <> key' -> get (<[key := v]> state) key' = get state key'.
Proof. intros Hne. unfold get. rewrite lookup_insert_ne by exact Hne. reflexivity. Qed.

Lemma built_shape_facts (t : Branch) :
  built_shape t ->
  level t = 1 /\ depth t = 8%nat /\ List.length (branches t) = 255%nat /\
  forall k,
    List.length (at_depth k t) = (if (k <=? 7)%nat then 2 ^ k else 0)%nat /\
    Forall (fun b => level b = 1 + Z.of_nat k) (at_depth k t).
Proof.
  intros (ox & oy & speed & g & Hs).
  pose proof (makeBranch_root 1 ox oy speed g) as (Hlv & _).
  pose proof (makeBranch_depth 1 ox oy speed g) as (Hd & _).
  pose proof (makeBranch_size 1 ox oy speed g) as Hn.
  cbv zeta in *.
  split; [rewrite (same_shape_level _ _ Hs); exact Hlv|].
  split; [rewrite (same_shape_depth _ _ Hs); exact Hd|].
  split.
  { rewrite (same_shape_size _ _ Hs).
    change (2 ^ S (Z.to_nat (numLevels - 1)))%nat with 256%nat in Hn. lia. }
  intros k.
  pose proof (makeBranch_at_depth 1 ox oy speed g k) as (Hlevels & Hlen).
  pose proof (same_shape_at_depth k _ _ Hs) as Hk.
  split.
  - rewrite <- (Forall2_length _ _ _ Hk). exact Hlen.
  - clear Hlen. induction Hk as [|b b' l l' Hb Hl IH]; [constructor|].
    inversion Hlevels; subst. constructor; [|auto].
    rewrite (same_shape_level _ _ Hb). assumption.
Qed.

Lemma makeBranch_rotation_ok (lv : Z) (ox oy speed : float) (g : rng) :
  Forall (fun b => rotation_ok (rotation b))
         (branches (fst (makeBranch lv ox oy speed g))).
Proof.
  apply makeBranch_Forall. clear. intros lv ox oy g.
  destruct (makeBranch_root lv ox oy speed g) as (_ & _ & _ & _ & _ & -> & _).
  apply wraparound_ok.
Qed.

Lemma updateBranch_rotation_ok (t : Branch) (ox oy s : float) :
  Forall (fun b => rotation_ok (rotation b))
         (branches (updateBranch t ox oy s)).
Proof.
  apply updateBranch_Forall. intros b ox' oy'.
  rewrite updateBranch_unfold. cbn. apply wraparound_ok.
Qed.

(** [INIT] on a store that holds a speed leaves the page in order. *)
Lemma reducer_INIT_ok (state : State) (action_speed : option float) (g : rng)
    (speed : float) :
  (action_speed = None -> state !! "speed" = Some (VNum speed)) ->
  (forall s, action_speed = Some s -> truthy s = true) ->
  exists state' g',
    reducer window state (INIT action_speed) g = (Some state', g') /\
    page_ok state'.
Proof.
  intros Hnone Hsome. unfold reducer, bind, ret.
  destruct (makeBranch 1 _ _ 1 g) as [t g'] eqn:Ht.
  eexists _, g'. split; [reflexivity|].
  assert (Hspeed : exists s,
             match action_speed with
             | Some s => if truthy s then VNum s else get state "speed"
             | None => get state "speed"
             end = VNum s).
  { destruct action_speed as [s|].
    - rewrite (Hsome s eq_refl). eexists. reflexivity.
    - unfold get. rewrite (Hnone eq_refl). eexists. reflexivity. }
  destruct Hspeed as [s ->].
  exists t, (2000 / (innerWidth window / innerHeight window))%float, s,
    (innerWidth window), (innerHeight window).
  repeat (rewrite lookup_insert_eq || rewrite lookup_insert_ne by discriminate).
  assert (Et : t = fst (makeBranch 1 (2000 / 2)
                          (2000 / (innerWidth window / innerHeight window) / 2)
                          1 g))
    by (rewrite Ht; reflexivity).
  destruct (makeBranch_root 1 (2000 / 2)
              (2000 / (innerWidth window / innerHeight window) / 2) 1 g)
    as (_ & Hx & Hy & _).
  cbv zeta in Hx, Hy. rewrite <- Et in Hx, Hy.
  split; [reflexivity|]. split; [reflexivity|]. split; [reflexivity|].
  split; [reflexivity|]. split; [reflexivity|]. split; [reflexivity|].
  split; [eexists _, _, _, g; rewrite Ht; apply same_shape_refl|].
  split; [rewrite Et; apply makeBranch_connected|].
  split; [exact Hx|]. split; [exact Hy|].
  rewrite Et. apply makeBranch_rotation_ok.
Qed.

Lemma page_ok_step (state : State) (e : Event) (g : rng) :
  page_ok state ->
  exists state' g',
    on_event window state e g = (Some state', g') /\ page_ok state'.
Proof.
  intros Hok. unfold on_event, bind.
  destruct e as [|cx cy|]; cbn [action_of].
  - destruct Hok as (t & h & s & ww & wh & Ht & Hw & Hh & Hs & Hww & Hwh
                     & Hb & Hc & Hx & Hy & Hr).
    unfold reducer, ret, get. rewrite Ht, Hw, Hh, Hs. cbn [toNumber].
    set (t' := updateBranch t (2000 / 2) (h / 2) s).
    eexists _, g. unfold render, get. rewrite lookup_insert_eq.
    split; [reflexivity|].
    exists t', h, s, ww, wh.
    repeat (rewrite lookup_insert_eq
            || rewrite lookup_insert_ne by discriminate).
    split; [reflexivity|]. split; [assumption|]. split; [assumption|].
    split; [assumption|]. split; [assumption|]. split; [assumption|].
    split.
    { destruct Hb as (ox & oy & sp & g0 & Hb). exists ox, oy, sp, g0.
      eapply same_shape_trans; [exact Hb | apply updateBranch_same_shape]. }
    split; [apply updateBranch_connected|].
    split; [subst t'; rewrite updateBranch_unfold; reflexivity|].
    split; [subst t'; rewrite updateBranch_unfold; reflexivity|].
    apply updateBranch_rotation_ok.
  - destruct Hok as (t & h & s & ww & wh & Ht & Hw & Hh & Hs & Hww & Hwh
                     & Hb & Hc & Hx & Hy & Hr).
    unfold reducer, ret. eexists _, g. unfold render, get.
    rewrite lookup_insert_ne by discriminate. rewrite Ht.
    split; [reflexivity|].
    eexists t, h, _, ww, wh.
    repeat (rewrite lookup_insert_eq
            || rewrite lookup_insert_ne by discriminate).
    repeat split; try assumption; reflexivity.
  - destruct Hok as (t & h & s & ww & wh & Ht & Hw & Hh & Hs & Hrest).
    destruct (reducer_INIT_ok state None g s (fun _ => Hs))
      as (state' & g' & Hred & Hok'); [discriminate|].
    rewrite Hred. exists state', g'. split; [|exact Hok'].
    destruct Hok' as (t' & ? & ? & ? & ? & Ht' & _).
    unfold ret, render, get. rewrite Ht'. reflexivity.
Qed.



End ReducerFacts.

(** * Further properties *)

(** ** The renderer *)

(** X1. [render] sizes the canvas from the store, clears it, and then makes
    one pass per level of the tree and no more: pass [k + 1] sets the styles
    of level [k + 1] and draws exactly the branches [k] steps below the root,
    in their order.  Without a tree in the store it throws.  On a forest that
    is not empty [renderLevel] makes as many passes as the forest is deep; on
    the empty forest, one pass that draws nothing. *)
Theorem X1_render_one_pass_per_level :
  (forall state : State,
     render state =
     match get state "tree" with
     | VBranch t =>
         Some (SetCanvasWidth (get state "width")
               :: SetCanvasHeight (get state "height")
               :: ClearCanvas
               :: flat_map (fun k => renderPass (1 + Z.of_nat k) (at_depth k t))
                           (seq 0 (depth t)))
     | _ => None
     end) /\
  (forall lv bs,
     bs <> [] ->
     renderLevel lv bs =
     flat_map (fun k => renderPass (lv + Z.of_nat k) (flat_map (at_depth k) bs))
              (seq 0 (forest_depth bs))) /\
  (forall lv, renderLevel lv [] = renderPass lv []).
Proof.
  split; [|split].
  - intros state. unfold render. destruct (get state "tree"); try reflexivity.
    rewrite renderLevel_tree. reflexivity.
  - intros lv bs Hne. apply renderLevel_passes; [exact Hne | reflexivity].
  - intros lv. rewrite renderLevel_eq. reflexivity.
Qed.

(** X2. A drawing of the store's tree has one hand and one gear for each
    branch of the tree, and nothing else: the hands drawn are, up to their
    order, the lines from [(x, y)] to [(endX, endY)] of the branches, and the
    gears the circles of radius [length / 40] around [(x, y)]. *)
Theorem X2_render_draws_each_branch_once :
  forall (state : State) (t : Branch),
    state !! "tree" = Some (VBranch t) ->
    exists cmds,
      render state = Some cmds /\
      Permutation (hands_of cmds) (map hand (branches t)) /\
      Permutation (gears_of cmds) (map gear (branches t)) /\
      List.length (hands_of cmds) = List.length (branches t) /\
      List.length (gears_of cmds) = List.length (branches t).
Proof.
  intros state t Ht. unfold render, get. rewrite Ht.
  eexists. split; [reflexivity|].
  rewrite renderLevel_tree. cbn [hands_of gears_of].
  rewrite hands_of_passes, gears_of_passes.
  assert (Hh : Permutation
                 (flat_map (fun k => map hand (at_depth k t)) (seq 0 (depth t)))
                 (map hand (branches t))).
  { pose proof (map_flat_map hand (fun k => at_depth k t) (seq 0 (depth t)))
      as E. cbv beta in E. rewrite E.
    apply Permutation_map, levels_Permutation. lia. }
  assert (Hg : Permutation
                 (flat_map (fun k => map gear (at_depth k t)) (seq 0 (depth t)))
                 (map gear (branches t))).
  { pose proof (map_flat_map gear (fun k => at_depth k t) (seq 0 (depth t)))
      as E. cbv beta in E. rewrite E.
    apply Permutation_map, levels_Permutation. lia. }
  repeat split; try assumption.
  - rewrite (Permutation_length Hh). apply length_map.
  - rewrite (Permutation_length Hg). apply length_map.
Qed.

Section BuildExtras.

Context `{MathLib} {rng : Type} `{RandomSource rng}.

(** X3. The tree built from level [lv] is the full binary tree down to level
    8: [k] steps below the root it has [2 ^ k] branches, all of level
    [lv + k], for [k] up to [8 - lv], and none further down; in all it has
    [2 ^ (9 - lv) - 1] branches, 255 from level 1, and a single one from
    level 8 on.  No number of updates changes these counts. *)
Theorem X3_build_full_binary_tree :
  forall lv ox oy speed g,
    let t := fst (makeBranch lv ox oy speed g) in
    let n := Z.to_nat (numLevels - lv) in
    (forall frames k,
       List.length (at_depth k (updates t frames)) =
         (if (k <=? n)%nat then 2 ^ k else 0)%nat /\
       Forall (fun b => level b = lv + Z.of_nat k)
              (at_depth k (updates t frames))) /\
    (forall frames,
       S (List.length (branches (updates t frames))) = (2 ^ S n)%nat) /\
    (lv = 1 -> List.length (branches t) = 255%nat) /\
    (numLevels <= lv -> branches t = [t]).
Proof.
  intros lv ox oy speed g t n.
  assert (Hk : forall k t',
             same_shape t t' ->
             List.length (at_depth k t') =
               (if (k <=? n)%nat then 2 ^ k else 0)%nat /\
             Forall (fun b => level b = lv + Z.of_nat k) (at_depth k t')).
  { intros k t' Hs.
    pose proof (makeBranch_at_depth lv ox oy speed g k) as (Hlevels & Hlen).
    pose proof (same_shape_at_depth k _ _ Hs) as Hrel. fold t in Hlevels, Hlen.
    split.
    - rewrite <- (Forall2_length _ _ _ Hrel). exact Hlen.
    - clear Hlen. induction Hrel as [|b b' l l' Hb Hl IH]; [constructor|].
      inversion Hlevels; subst. constructor; [|auto].
      rewrite (same_shape_level _ _ Hb). assumption. }
  pose proof (makeBranch_size lv ox oy speed g) as Hn. fold t n in Hn.
  split; [|split; [|split]].
  - intros frames k. apply Hk, updates_same_shape.
  - intros frames.
    rewrite (same_shape_size _ _ (updates_same_shape frames t)). exact Hn.
  - intros ->. subst n. change (2 ^ S (Z.to_nat (numLevels - 1)))%nat
      with 256%nat in Hn. lia.
  - intros Hlv.
    pose proof (proj2 (makeBranch_node lv ox oy speed g) Hlv) as Hcs.
    fold t in Hcs. destruct t. simpl in Hcs. subst. reflexivity.
Qed.

End BuildExtras.

(** ** The reducer *)

Section ReducerExtras.

Context `{MathLib} {rng : Type} `{RandomSource rng}.

(** X4. [INIT] never fails.  It sets six keys and leaves every other key of
    the store as it was: the window's two sizes, [width] 2000, [height] 2000
    over the window's aspect ratio, and a tree built from level 1 at the
    centre [(1000, height / 2)] at speed 1, whatever the speed of the store
    or of the action; the random source is left as the build leaves it.  The
    speed of the action is taken unless it is missing, zero of either sign or
    NaN: then the store keeps the speed it has, or [undefined] if it has
    none. *)
Theorem X4_init_store :
  forall (window : Window) (state : State) (action_speed : option float)
         (g : rng),
    let height := (2000 / (innerWidth window / innerHeight window))%float in
    let built := makeBranch 1 1000 (height / 2) 1 g in
    exists state',
      reducer window state (INIT action_speed) g = (Some state', snd built) /\
      state' !! "windowWidth" = Some (VNum (innerWidth window)) /\
      state' !! "windowHeight" = Some (VNum (innerHeight window)) /\
      state' !! "width" = Some (VNum 2000) /\
      state' !! "height" = Some (VNum height) /\
      state' !! "tree" = Some (VBranch (fst built)) /\
      get state' "speed" =
        match action_speed with
        | Some s => if (s =? 0)%float || is_nan s then get state "speed"
                    else VNum s
        | None => get state "speed"
        end /\
      (forall key,
         ~ In key ["windowWidth"; "windowHeight"; "width"; "height"; "tree";
                   "speed"] ->
         state' !! key = state !! key).
Proof.
  intros window state action_speed g height built.
  unfold reducer, bind, ret.
  change (2000 / 2)%float with 1000%float. fold height. fold built.
  destruct built as [t g']. eexists. split; [reflexivity|].
  repeat (rewrite lookup_insert_eq
          || rewrite lookup_insert_ne by discriminate).
  repeat split.
  - unfold get at 1.
    repeat (rewrite lookup_insert_eq
            || rewrite lookup_insert_ne by discriminate).
    destruct action_speed as [s|]; unfold truthy.
    + destruct (s =? 0)%float, (is_nan s); cbn; try reflexivity;
        unfold get; destruct (state !! "speed"); reflexivity.
    + unfold get. destruct (state !! "speed"); reflexivity.
  - intros key Hkey. cbn [In] in Hkey.
    repeat (rewrite lookup_insert_ne by (intros E; apply Hkey; auto 10)).
    reflexivity.
Qed.

(** X5. [NEXT_FRAME] fails exactly when the store has no tree.  Otherwise it
    replaces the tree, and nothing else, by its update from the centre
    [(width / 2, height / 2)] at the store's speed: the new tree has the shape
    of the old one, its root is at the centre, each child starts where its
    parent ends, and every rotation is 0, 360, or not outside the interval.
    The window and the random source play no part. *)
Theorem X5_frame_store :
  forall (window : Window) (state : State) (g : rng),
    (fst (reducer window state NEXT_FRAME g) = None <->
     forall t, state !! "tree" <> Some (VBranch t)) /\
    (forall t,
       state !! "tree" = Some (VBranch t) ->
       let rootX := (toNumber (get state "width") / 2)%float in
       let rootY := (toNumber (get state "height") / 2)%float in
       let t' := updateBranch t rootX rootY (toNumber (get state "speed")) in
       reducer window state NEXT_FRAME g
         = (Some (<["tree" := VBranch t']> state), g) /\
       same_shape t t' /\ connected t' /\ x t' = rootX /\ y t' = rootY /\
       Forall (fun b => rotation_ok (rotation b)) (branches t')) /\
    (forall window' : Window,
       reducer window' state NEXT_FRAME g = reducer window state NEXT_FRAME g) /\
    snd (reducer window state NEXT_FRAME g) = g.
Proof.
  intros window state g. unfold reducer, ret, get.
  split; [split|split; [|split]].
  - intros Hnone t Ht. rewrite Ht in Hnone. discriminate.
  - intros Hno. destruct (state !! "tree") as [[n|t|]|]; try reflexivity.
    exfalso. exact (Hno t eq_refl).
  - intros t Ht. rewrite Ht. cbv zeta.
    split; [reflexivity|].
    split; [apply updateBranch_same_shape|].
    split; [apply updateBranch_connected|].
    split; [rewrite updateBranch_unfold; reflexivity|].
    split; [rewrite updateBranch_unfold; reflexivity|].
    apply updateBranch_rotation_ok.
  - reflexivity.
  - destruct (state !! "tree") as [[n|t|]|]; reflexivity.
Qed.

(** X6. [MOVE] never fails, whatever the store holds: it sets [speed] to a
    number and leaves every other key, the tree among them, and the random
    source as they are.  The speed it sets does not depend on the speed
    before, nor on the window at the time of the event but on the window
    sizes in the store, so of two moves in a row only the second counts. *)
Theorem X6_move_store :
  forall (window : Window) (state : State) (ax ay : float) (g : rng),
    exists speed,
      reducer window state (MOVE ax ay) g
        = (Some (<["speed" := VNum speed]> state), g) /\
      (forall (window' : Window) (bx by_ : float) (g' : rng),
         fst (reducer window' (<["speed" := VNum speed]> state) (MOVE bx by_) g')
         = fst (reducer window' state (MOVE bx by_) g')) /\
      (forall (window' : Window) (v : Value),
         reducer window' (<["speed" := v]> state) (MOVE ax ay) g
         = (Some (<["speed" := VNum speed]> state), g)).
Proof.
  intros window state ax ay g. unfold reducer, ret. eexists.
  split; [reflexivity|]. split.
  - intros window' bx by_ g'. cbn [fst].
    rewrite !get_insert_ne by discriminate. rewrite insert_insert_eq.
    reflexivity.
  - intros window' v.
    rewrite !get_insert_ne by discriminate. rewrite insert_insert_eq.
    reflexivity.
Qed.

End ReducerExtras.

(** ** Numbers that compare equal, and zero *)

Lemma eqb_trans (a b c : float) :
  (a =? b)%float = true -> (b =? c)%float = true -> (a =? c)%float = true.
Proof.
  intros Hab Hbc. pose proof (eqb_SFcompare a b Hab) as Hc.
  rewrite FloatAxioms.eqb_spec in *. unfold SFeqb in *.
  rewrite (SFcompare_Eq_l _ _ (Prim2SF c) Hc). exact Hbc.
Qed.

(** Zero over a positive number is zero. *)
Lemma div_zero_positive (b : float) :
  (0 <? b)%float = true -> (0 / b)%float = 0%float.
Proof.
  intros Hb. apply Prim2SF_inj. rewrite div_spec, Prim2SF_zero.
  rewrite FloatAxioms.ltb_spec, Prim2SF_zero in Hb. unfold SFltb in Hb.
  destruct (Prim2SF b) as [s|s| |s m e]; simpl in Hb; try discriminate;
    destruct s; try discriminate; reflexivity.
Qed.

Lemma eqb_leb_l (a b c : float) :
  (a =? b)%float = true -> (a <=? c)%float = (b <=? c)%float.
Proof.
  intros Heq. rewrite !FloatAxioms.leb_spec. unfold SFleb.
  rewrite (SFcompare_Eq_l _ _ (Prim2SF c) (eqb_SFcompare a b Heq)).
  reflexivity.
Qed.

Lemma eqb_leb_r (a b c : float) :
  (a =? b)%float = true -> (c <=? a)%float = (c <=? b)%float.
Proof.
  intros Heq. rewrite !FloatAxioms.leb_spec. unfold SFleb.
  rewrite (SFcompare_Eq_r _ _ (Prim2SF c) (eqb_SFcompare a b Heq)).
  reflexivity.
Qed.

(** [==] numbers are in the closed interval together. *)
Lemma within_0_360_eqb (a b : float) :
  (a =? b)%float = true -> within_0_360 a = within_0_360 b.
Proof.
  intros Heq. unfold within_0_360.
  rewrite (eqb_leb_r a b 0 Heq), (eqb_leb_l a b 360 Heq). reflexivity.
Qed.

Lemma Forall2_compose {A : Type} (R : A -> A -> Prop) :
  (forall a b c, R a b -> R b c -> R a c) ->
  forall l1 l2 l3, Forall2 R l1 l2 -> Forall2 R l2 l3 -> Forall2 R l1 l3.
Proof.
  intros Htrans l1 l2 l3 H12. revert l3.
  induction H12 as [|a b l1 l2 Hab H12 IH]; intros l3 H23;
    inversion H23; subst; constructor; eauto.
Qed.

Section EngineExtras.

Context `{MathLib} {rng : Type} `{RandomSource rng}.

(** A relation between each branch and its update that holds whenever a
    property of the branch does, holds all over a tree with the property. *)
Lemma updateBranch_Forall2_if (P : Branch -> Prop) (R : Branch -> Branch -> Prop)
    (s : float) :
  (forall b ox oy, P b -> R b (updateBranch b ox oy s)) ->
  forall t ox oy,
    Forall P (branches t) ->
    Forall2 R (branches t) (branches (updateBranch t ox oy s)).
Proof.
  intros step t ox oy Hall.
  pose proof (updateBranch_Forall2 (fun b b' => P b -> R b b') s step t ox oy)
    as Hrel.
  revert Hall. induction Hrel; intros Hall; inversion Hall; subst;
    constructor; auto.
Qed.

(** At speed zero a branch with a rotation in the closed interval and a
    finite rotation change keeps both, and its rotation [==] the old one;
    the rotation change may be zero. *)
Lemma updateBranch_zero_speed (t : Branch) (ox oy s : float) :
  (s =? 0)%float = true ->
  Forall (fun b => within_0_360 (rotation b) = true /\
                   is_finite (rotationChange b) = true)
         (branches t) ->
  Forall2 (fun b b' =>
             (rotation b' =? rotation b)%float = true /\
             within_0_360 (rotation b') = true /\
             is_finite (rotationChange b') = true)
          (branches t) (branches (updateBranch t ox oy s)).
Proof.
  intros Hs. apply updateBranch_Forall2_if.
  intros b ox' oy' (Hr & Hc). rewrite updateBranch_unfold. cbn.
  rewrite nextBranchRotation_wraparound.
  destruct (rotation_step_zero _ _ _ Hr Hc Hs) as [-> Heq].
  split; [exact Heq|]. split; [|exact Hc].
  rewrite (within_0_360_eqb _ _ Heq). exact Hr.
Qed.

(** X7. With a window width above zero in the store, the side of the pointer
    gives the sign of the speed that [MOVE] sets: to the left of the centre
    column the speed is never above zero, on the column and to its right it
    is never below zero, whatever the heights are. *)
Theorem X7_move_speed_sign :
  forall (window : Window) (state : State) (w ax ay : float) (g : rng),
    state !! "windowWidth" = Some (VNum w) ->
    (0 <? w)%float = true ->
    exists speed,
      reducer window state (MOVE ax ay) g
        = (Some (<["speed" := VNum speed]> state), g) /\
      ((ax - w / 2 <? 0)%float = true -> (0 <? speed)%float = false) /\
      ((ax - w / 2 <? 0)%float = false -> (speed <? 0)%float = false).
Proof.
  intros window state w ax ay g Hw Hpos. unfold reducer, ret, get.
  rewrite Hw. cbn [toNumber]. eexists. split; [reflexivity|].
  assert (Hplus : SF_plus (Prim2SF (w / 3))).
  { rewrite div_spec. apply SF64div_plus; [apply positive_plus, Hpos|].
    reflexivity. }
  split; intros ->.
  - rewrite mul_minus_one, div_opp_r. apply opp_nonneg_ltb.
    rewrite div_spec. unfold Math_sqrt. rewrite sqrt_spec.
    apply SF64div_nonneg; [apply SF64sqrt_nonneg | exact Hplus].
  - rewrite mul_one. apply nonneg_ltb_zero.
    rewrite div_spec. unfold Math_sqrt. rewrite sqrt_spec.
    apply SF64div_nonneg; [apply SF64sqrt_nonneg | exact Hplus].
Qed.

(** X8. In a store that has no number under [windowWidth], as before the
    first [INIT], [MOVE] sets the speed to NaN, wherever the pointer is. *)
Theorem X8_move_without_window_width :
  forall (window : Window) (state : State) (ax ay : float) (g : rng),
    (forall w, state !! "windowWidth" <> Some (VNum w)) ->
    reducer window state (MOVE ax ay) g
      = (Some (<["speed" := VNum nan]> state), g).
Proof.
  intros window state ax ay g Hno. unfold reducer, ret.
  assert (Hw : toNumber (get state "windowWidth") = nan).
  { unfold get. destruct (state !! "windowWidth") as [[w| |]|]; try reflexivity.
    exfalso. exact (Hno w eq_refl). }
  rewrite Hw. rewrite !div_nan_l, sub_nan_r, mul_nan_r, add_nan_l.
  change (nan <? 0)%float with false. rewrite mul_one.
  unfold Math_sqrt. change (PrimFloat.sqrt nan) with nan.
  rewrite div_nan_l. reflexivity.
Qed.

(** X9. A frame at speed NaN turns every rotation of the tree into NaN, and
    no later frame, at whatever speed, brings a number back. *)
Theorem X9_nan_speed_loses_rotations :
  forall t ox oy frames,
    Forall (fun b => rotation b = nan)
           (branches (updates (updateBranch t ox oy nan) frames)).
Proof.
  intros t ox oy frames.
  assert (Hfirst : Forall (fun b => rotation b = nan)
                          (branches (updateBranch t ox oy nan))).
  { apply updateBranch_Forall. intros b ox' oy'.
    rewrite updateBranch_unfold. cbn. rewrite nextBranchRotation_wraparound.
    rewrite mul_nan_r, add_nan_r. reflexivity. }
  revert Hfirst. generalize (updateBranch t ox oy nan). clear t ox oy.
  induction frames as [|[[ox oy] s] frames IH]; intros t Ht; [exact Ht|].
  cbn [updates fold_left fst snd]. apply IH.
  pose proof (updateBranch_Forall2_if
                (fun b => rotation b = nan) (fun _ b' => rotation b' = nan) s)
    as Hstep.
  assert (Hrel : Forall2 (fun _ b' => rotation b' = nan) (branches t)
                         (branches (updateBranch t ox oy s))).
  { apply Hstep; [|exact Ht]. intros b ox' oy' Hb.
    rewrite updateBranch_unfold. cbn. rewrite nextBranchRotation_wraparound.
    rewrite Hb, add_nan_l. reflexivity. }
  clear - Hrel. induction Hrel; constructor; auto.
Qed.

(** X10. Frames at speed zero, of either sign, turn nothing: after any
    number of them, from any origins, every rotation of a tree whose
    rotations are in the closed interval from 0 to 360 and whose rotation
    changes are finite, zero or not, still [==] what it was. *)
Theorem X10_frames_at_speed_zero :
  forall t frames,
    Forall (fun b => within_0_360 (rotation b) = true /\
                     is_finite (rotationChange b) = true)
           (branches t) ->
    Forall (fun f => (snd f =? 0)%float = true) frames ->
    Forall2 (fun b b' => (rotation b' =? rotation b)%float = true)
            (branches t) (branches (updates t frames)).
Proof.
  intros t frames Ht Hframes. revert t Ht.
  induction Hframes as [|[[ox oy] s] frames Hs Hframes IH]; intros t Ht.
  - cbn. induction Ht as [|b l Hb Hl IHl]; constructor; [|exact IHl].
    destruct Hb as (Hr & _). rewrite FloatAxioms.eqb_spec.
    unfold SFeqb. rewrite SFcompare_refl; [reflexivity|].
    pose proof (within_0_360_finite _ Hr) as Hf.
    destruct (Prim2SF (rotation b)); simpl in Hf; try contradiction;
      discriminate.
  - cbn [snd] in Hs. cbn [updates fold_left fst snd].
    pose proof (updateBranch_zero_speed t ox oy s Hs Ht) as Hstep.
    eapply (Forall2_compose
              (fun b b' => (rotation b' =? rotation b)%float = true)).
    + intros a b c Hab Hbc. eapply eqb_trans; eassumption.
    + eapply Forall2_impl; [exact Hstep|]. cbv beta.
      intros b b' (Heq & _). exact Heq.
    + apply IH. clear - Hstep.
      induction Hstep as [|b b' l l' (_ & Hr & Hc) Hl IHl]; constructor;
        [split; assumption | exact IHl].
Qed.

End EngineExtras.

Section EngineExtras2.

Context `{MathLib} {rng : Type} `{RandomSource rng}.

Lemma updateBranch_same_core (t : Branch) :
  forall ox1 oy1 ox2 oy2 s,
    same_core (updateBranch t ox1 oy1 s) (updateBranch t ox2 oy2 s).
Proof.
  induction t as [b IHb] using Branch_tree_ind. intros ox1 oy1 ox2 oy2 s.
  rewrite !updateBranch_unfold. constructor; try reflexivity. cbn.
  induction IHb as [|c cs Hc Hcs IH]; cbn; constructor; auto.
Qed.

(** X11. The pointer on the exact centre of the window stops the clockwork:
    with the window's sizes in the store, their halves finite and a third of
    the width above zero, [MOVE] to the centre sets the speed to 0, and the
    frame after it gives every branch a rotation that [==] the one it had,
    in a tree whose rotations are in the closed interval from 0 to 360 and
    whose rotation changes are finite, zero or not. *)
Theorem X11_pointer_at_centre_stops :
  forall (window : Window) (state : State) (w h : float) (t : Branch) (g : rng),
    state !! "windowWidth" = Some (VNum w) ->
    state !! "windowHeight" = Some (VNum h) ->
    state !! "tree" = Some (VBranch t) ->
    is_finite (w / 2) = true -> is_finite (h / 2) = true ->
    (0 <? w / 3)%float = true ->
    Forall (fun b => within_0_360 (rotation b) = true /\
                     is_finite (rotationChange b) = true)
           (branches t) ->
    let state1 := <["speed" := VNum 0]> state in
    reducer window state (MOVE (w / 2) (h / 2)) g = (Some state1, g) /\
    exists t',
      reducer window state1 NEXT_FRAME g
        = (Some (<["tree" := VBranch t']> state1), g) /\
      Forall2 (fun b b' => (rotation b' =? rotation b)%float = true)
              (branches t) (branches t').
Proof.
  intros window state w h t g Hw Hh Ht Hfw Hfh Hpos Hnum state1. split.
  - unfold reducer, ret, get. rewrite Hw, Hh. cbn [toNumber].
    rewrite !sub_diag_finite by assumption.
    change (0 <? 0)%float with false. rewrite mul_one.
    unfold Math_sqrt. change (PrimFloat.sqrt (0 * 0 + 0 * 0)) with 0%float.
    rewrite div_zero_positive by exact Hpos. reflexivity.
  - assert (Hg : get state1 "tree" = VBranch t).
    { subst state1. rewrite get_insert_ne by discriminate.
      unfold get. rewrite Ht. reflexivity. }
    unfold reducer, ret. rewrite Hg. eexists. split; [reflexivity|].
    subst state1. rewrite get_insert_eq. cbn [toNumber].
    eapply Forall2_impl;
      [apply updateBranch_zero_speed; [reflexivity | exact Hnum]|].
    cbv beta. intros b b' (Heq & _). exact Heq.
Qed.

(** X12. [updateBranch] reads of a tree only the levels, the lengths, the
    rotations and the rotation changes: two trees that agree on them, branch
    by branch, have the same update, whatever positions and end points they
    hold.  So the origin of one frame leaves no trace after the next. *)
Theorem X12_update_reads_core_only :
  forall t t' : Branch,
    same_core t t' ->
    (forall ox oy s, updateBranch t ox oy s = updateBranch t' ox oy s) /\
    (forall ox1 oy1 ox2 oy2 s1 ox oy s,
       updateBranch (updateBranch t ox1 oy1 s1) ox oy s =
       updateBranch (updateBranch t' ox2 oy2 s1) ox oy s).
Proof.
  assert (Hcore : forall t t', same_core t t' ->
                    forall ox oy s,
                      updateBranch t ox oy s = updateBranch t' ox oy s).
  { induction t as [b IHb] using Branch_tree_ind. intros t' Hs ox oy s.
    inversion Hs as [? ? Hlv Hlen Hrot Hrc Hcs]; subst.
    rewrite !updateBranch_unfold. unfold nextBranchRotation.
    rewrite Hlv, Hlen, Hrot, Hrc. cbv zeta. f_equal.
    clear - IHb Hcs. induction Hcs as [|c c' cs cs' Hc Hcs IH];
      [reflexivity|].
    inversion IHb; subst. cbn [map]. f_equal; auto. }
  intros t t' Hs. split; [apply Hcore, Hs|].
  intros ox1 oy1 ox2 oy2 s1 ox oy s.
  rewrite (Hcore _ _ (updateBranch_same_core t ox1 oy1 ox2 oy2 s1)).
  rewrite (Hcore t t' Hs ox2 oy2 s1). reflexivity.
Qed.

End EngineExtras2.

(** ** The page *)

Section PageExtras.

Context `{MathLib} {rng : Type} `{RandomSource rng}.

Lemma page_ok_run (events : list (Window * Event)) :
  forall state g,
    page_ok state ->
    exists state' g',
      run state events g = (Some state', g') /\ page_ok state'.
Proof.
  induction events as [|[window e] events IH]; intros state g Hok.
  - exists state, g. split; [reflexivity | exact Hok].
  - cbn [run]. unfold bind at 1.
    destruct (page_ok_step window state e g Hok) as (state1 & g1 & -> & Hok1).
    apply IH, Hok1.
Qed.

Lemma page_ok_boot (window : Window) (g : rng) :
  exists state g', boot window g = (Some state, g') /\ page_ok state.
Proof.
  unfold boot, bind. cbn [reducer]. unfold ret at 1.
  apply (reducer_INIT_ok window ∅ (Some 1%float) g 1%float).
  - discriminate.
  - intros s [= <-]. reflexivity.
Qed.

Lemma page_ok_page (window : Window) (events : list (Window * Event)) (g : rng) :
  exists state g', page window events g = (Some state, g') /\ page_ok state.
Proof.
  unfold page, bind.
  destruct (page_ok_boot window g) as (state0 & g0 & -> & Hok0).
  apply page_ok_run, Hok0.
Qed.

(** X13. The page never throws.  Whatever the window is at loading and at
    each event, and whatever frames, pointer moves and clicks come in
    whatever order, every dispatch and every drawing goes through, and the
    store then holds a canvas width of 2000, numbers for the canvas height,
    the speed and the window's two sizes, and a tree with the shape of a
    built one whose root is at the centre of the canvas, whose children
    start where their parents end, and whose rotations are never below 0 or
    above 360. *)
Theorem X13_page_never_throws :
  forall (window : Window) (events : list (Window * Event)) (g : rng),
    exists state g',
      page window events g = (Some state, g') /\
      page_ok state /\
      exists t height,
        get state "tree" = VBranch t /\
        get state "width" = VNum 2000 /\ get state "height" = VNum height /\
        x t = 1000%float /\ y t = (height / 2)%float /\
        level t = 1 /\ depth t = 8%nat /\
        List.length (branches t) = 255%nat /\
        connected t /\
        Forall (fun b => rotation_ok (rotation b)) (branches t).
Proof.
  intros window events g.
  destruct (page_ok_page window events g) as (state & g' & Hrun & Hok).
  exists state, g'. split; [exact Hrun|]. split; [exact Hok|].
  destruct Hok as (t & h & s & ww & wh & Ht & Hw & Hh & Hs & Hww & Hwh
                   & Hb & Hc & Hx & Hy & Hr).
  destruct (built_shape_facts t Hb) as (Hlv & Hd & Hn & _).
  exists t, h. unfold get. rewrite Ht, Hw, Hh. repeat split; assumption.
Qed.

(** X14. Every frame the page draws, after whatever events, is eight passes
    over a full binary tree: pass [k + 1] draws the [2 ^ k] branches [k]
    steps below the root, all of level [k + 1]; from the second pass on each
    hand starts where a hand of the pass before ends; in all 255 hands and
    255 gears are drawn. *)
Theorem X14_page_frame_drawing :
  forall (window : Window) (events : list (Window * Event)) (g : rng),
    exists state g' t cmds,
      page window events g = (Some state, g') /\
      get state "tree" = VBranch t /\
      render state = Some cmds /\
      cmds = SetCanvasWidth (VNum 2000)
             :: SetCanvasHeight (get state "height")
             :: ClearCanvas
             :: flat_map (fun k => renderPass (1 + Z.of_nat k) (at_depth k t))
                         (seq 0 8) /\
      (forall k, (k < 8)%nat ->
         List.length (at_depth k t) = (2 ^ k)%nat /\
         Forall (fun b => level b = 1 + Z.of_nat k) (at_depth k t)) /\
      (forall k c, In c (at_depth (S k) t) ->
         exists b, In b (at_depth k t) /\ x c = endX b /\ y c = endY b) /\
      List.length (hands_of cmds) = 255%nat /\
      List.length (gears_of cmds) = 255%nat.
Proof.
  intros window events g.
  destruct (page_ok_page window events g) as (state & g' & Hrun & Hok).
  destruct Hok as (t & h & s & ww & wh & Ht & Hw & Hh & Hs & Hww & Hwh
                   & Hb & Hc & Hx & Hy & Hr).
  destruct (built_shape_facts t Hb) as (Hlv & Hd & Hn & Hlevels).
  exists state, g', t. eexists.
  split; [exact Hrun|].
  split; [unfold get; rewrite Ht; reflexivity|].
  split; [unfold render, get; rewrite Ht, Hw; reflexivity|].
  rewrite renderLevel_tree, Hd.
  split; [unfold get; rewrite Hh; reflexivity|].
  split.
  { intros k Hk. destruct (Hlevels k) as [Hlen Hall].
    destruct (Nat.leb_spec k 7); [|lia]. split; assumption. }
  split; [intros k c Hin; apply (connected_at_depth k t Hc c Hin)|].
  cbn [hands_of gears_of]. rewrite hands_of_passes, gears_of_passes.
  pose proof (map_flat_map hand (fun k => at_depth k t) (seq 0 8)) as Eh.
  pose proof (map_flat_map gear (fun k => at_depth k t) (seq 0 8)) as Eg.
  cbv beta in Eh, Eg. rewrite Eh, Eg, !length_map.
  assert (Hp : Permutation (flat_map (fun k => at_depth k t) (seq 0 8))
                           (branches t))
    by (apply levels_Permutation; lia).
  rewrite (Permutation_length Hp), Hn. split; reflexivity.
Qed.

Lemma on_event_frame (window : Window) (state : State) (t : Branch) (g : rng) :
  state !! "tree" = Some (VBranch t) ->
  on_event window state AnimationFrame g =
  (Some (<["tree" :=
             VBranch (updateBranch t (toNumber (get state "width") / 2)
                                     (toNumber (get state "height") / 2)
                                     (toNumber (get state "speed")))]> state),
   g).
Proof.
  intros Ht.
  assert (Hg : get state "tree" = VBranch t) by (unfold get; rewrite Ht; easy).
  unfold on_event, bind. cbn [action_of reducer]. rewrite Hg. unfold ret.
  unfold render. rewrite get_insert_eq. reflexivity.
Qed.

Lemma on_event_move (window : Window) (state : State) (t : Branch)
    (cx cy : float) (g : rng) :
  state !! "tree" = Some (VBranch t) ->
  exists speed,
    on_event window state (MouseMove cx cy) g =
    (Some (<["speed" := VNum speed]> state), g).
Proof.
  intros Ht.
  assert (Hg : get state "tree" = VBranch t) by (unfold get; rewrite Ht; easy).
  unfold on_event, bind. cbn [action_of reducer]. unfold ret.
  unfold render. rewrite get_insert_ne by discriminate. rewrite Hg.
  eexists. reflexivity.
Qed.

Lemma run_without_click (events : list (Window * Event)) :
  Forall (fun we => snd we <> Click) events ->
  forall state t g,
    state !! "tree" = Some (VBranch t) ->
    exists state' t',
      run state events g = (Some state', g) /\
      state' !! "tree" = Some (VBranch t') /\
      same_shape t t' /\
      (forall key, key <> "tree" -> key <> "speed" ->
                   state' !! key = state !! key).
Proof.
  induction 1 as [|[window e] events He Hes IH]; intros state t g Ht.
  - exists state, t. split; [reflexivity|]. split; [exact Ht|].
    split; [apply same_shape_refl | reflexivity].
  - cbn [snd] in He. cbn [run]. unfold bind at 1.
    destruct e as [|cx cy|]; [| |contradiction].
    + rewrite (on_event_frame window state t g Ht).
      set (t1 := updateBranch t _ _ _).
      destruct (IH (<["tree" := VBranch t1]> state) t1 g
                  (lookup_insert_eq _ _ _))
        as (state' & t' & Hrun & Ht' & Hs & Hkeys).
      exists state', t'. split; [exact Hrun|]. split; [exact Ht'|].
      split.
      * eapply same_shape_trans; [apply updateBranch_same_shape | exact Hs].
      * intros key Hk1 Hk2. rewrite (Hkeys key Hk1 Hk2).
        apply lookup_insert_ne. congruence.
    + destruct (on_event_move window state t cx cy g Ht) as [speed ->].
      destruct (IH (<["speed" := VNum speed]> state) t g)
        as (state' & t' & Hrun & Ht' & Hs & Hkeys).
      { rewrite lookup_insert_ne by discriminate. exact Ht. }
      exists state', t'. split; [exact Hrun|]. split; [exact Ht'|].
      split; [exact Hs|].
      intros key Hk1 Hk2. rewrite (Hkeys key Hk1 Hk2).
      apply lookup_insert_ne. congruence.
Qed.

(** X15. Only a click builds a new clockwork and looks at the window again.
    Through any frames and pointer moves, whatever the window has become at
    each of them, the tree keeps the shape of the one built at loading, the
    canvas and window sizes in the store stay those taken at loading, and the
    random source stays as the loading left it. *)
Theorem X15_no_click_no_rebuild :
  forall (window : Window) (events : list (Window * Event)) (g : rng),
    Forall (fun we => snd we <> Click) events ->
    let height := (2000 / (innerWidth window / innerHeight window))%float in
    let built := makeBranch 1 1000 (height / 2) 1 g in
    exists state t,
      page window events g = (Some state, snd built) /\
      state !! "tree" = Some (VBranch t) /\
      same_shape (fst built) t /\
      state !! "width" = Some (VNum 2000) /\
      state !! "height" = Some (VNum height) /\
      state !! "windowWidth" = Some (VNum (innerWidth window)) /\
      state !! "windowHeight" = Some (VNum (innerHeight window)).
Proof.
  intros window events g Hev height built.
  unfold page, bind at 1, boot, bind at 1. cbn [reducer].
  unfold ret at 1, bind at 1, ret at 1.
  change (2000 / 2)%float with 1000%float. fold height. fold built.
  destruct built as [t0 g0]. cbn [fst snd truthy].
  change (truthy 1) with true. cbv iota.
  set (state0 := <["windowWidth" := _]> _).
  destruct (run_without_click events Hev state0 t0 g0)
    as (state & t & Hrun & Ht & Hs & Hkeys).
  { subst state0.
    repeat (rewrite lookup_insert_eq
            || rewrite lookup_insert_ne by discriminate). reflexivity. }
  exists state, t. split; [exact Hrun|]. split; [exact Ht|].
  split; [exact Hs|].
  rewrite !Hkeys by discriminate. subst state0.
  repeat (rewrite lookup_insert_eq
          || rewrite lookup_insert_ne by discriminate).
  repeat split; reflexivity.
Qed.

End PageExtras.

(** * The further properties at concrete inputs *)

(** X2 at the sample store: the drawing of the sample tree. *)
Lemma X2_witness :
  exists cmds,
    render sample_store = Some cmds /\
    Permutation (hands_of cmds) (map hand (branches sample_tree)) /\
    Permutation (gears_of cmds) (map gear (branches sample_tree)) /\
    List.length (hands_of cmds) = List.length (branches sample_tree) /\
    List.length (gears_of cmds) = List.length (branches sample_tree).
Proof.
  apply (X2_render_draws_each_branch_once sample_store sample_tree).
  reflexivity.
Defined.

(** X7 at the sample state, 800 wide: the pointer at (100, 50), left of the
    centre column, and at (700, 50), right of it. *)
Lemma X7_witness :
  (exists speed,
     @reducer sampleMath (list Z) scriptedRandom sample_window sample_state
       (MOVE 100 50) []
     = (Some (<["speed" := VNum speed]> sample_state), []) /\
     (0 <? speed)%float = false) /\
  (exists speed,
     @reducer sampleMath (list Z) scriptedRandom sample_window sample_state
       (MOVE 700 50) []
     = (Some (<["speed" := VNum speed]> sample_state), []) /\
     (speed <? 0)%float = false).
Proof.
  split.
  - destruct (@X7_move_speed_sign sampleMath (list Z) scriptedRandom
                sample_window sample_state 800 100 50 [] eq_refl eq_refl)
      as (speed & Hmove & Hleft & _).
    exists speed. split; [exact Hmove | apply Hleft; reflexivity].
  - destruct (@X7_move_speed_sign sampleMath (list Z) scriptedRandom
                sample_window sample_state 800 700 50 [] eq_refl eq_refl)
      as (speed & Hmove & _ & Hright).
    exists speed. split; [exact Hmove | apply Hright; reflexivity].
Defined.

(** X8 at the empty store, the one the page starts from. *)
Lemma X8_witness :
  @reducer sampleMath (list Z) scriptedRandom sample_window ∅ (MOVE 100 50) []
  = (Some (<["speed" := VNum nan]> ∅), []).
Proof.
  apply (@X8_move_without_window_width sampleMath (list Z) scriptedRandom).
  intros w. rewrite lookup_empty. discriminate.
Defined.

(** X10 at a root that does not turn (rotation 10, change 0) with a child
    on the edge of the interval (rotation 360, change -1): a frame at speed
    [0] and one at speed [-0]. *)
Lemma X10_witness :
  let t := mkBranch 1 0 0 0 0 0 10 0 [mkBranch 2 0 0 3 4 5 360 (-1) []] in
  Forall2 (fun b b' => (rotation b' =? rotation b)%float = true)
          (branches t)
          (branches (@updates sampleMath t
                       [(1000, 750, 0); (0, 0, -0)]%float)).
Proof.
  apply (@X10_frames_at_speed_zero sampleMath); repeat constructor.
Defined.

(** X11 at the sample store: the window is 800 by 600, the pointer comes to
    (400, 300). *)
Lemma X11_witness :
  let state1 := <["speed" := VNum 0]> sample_store in
  @reducer sampleMath (list Z) scriptedRandom sample_window sample_store
    (MOVE (800 / 2) (600 / 2)) [] = (Some state1, []) /\
  exists t',
    @reducer sampleMath (list Z) scriptedRandom sample_window state1
      NEXT_FRAME []
      = (Some (<["tree" := VBranch t']> state1), []) /\
    Forall2 (fun b b' => (rotation b' =? rotation b)%float = true)
            (branches sample_tree) (branches t').
Proof.
  apply (@X11_pointer_at_centre_stops sampleMath (list Z) scriptedRandom
           sample_window sample_store 800 600 sample_tree []);
    try reflexivity.
  eapply List.Forall_impl;
    [|apply (@makeBranch_tree_numeric sampleMath (list Z) scriptedRandom
               scriptedRandom_dice 1 1000 750 1 [2; 4; 1]); reflexivity].
  intros b (Hr & Hc & _). split; assumption.
Defined.

(** X12 at two trees of a root and a child that differ in every position and
    end point. *)
Lemma X12_witness :
  let t := mkBranch 1 0 0 0 0 0 10 2 [mkBranch 2 0 0 3 4 5 20 (-1) []] in
  let t' := mkBranch 1 7 8 9 9 0 10 2 [mkBranch 2 1 1 1 1 5 20 (-1) []] in
  (forall ox oy s,
     @updateBranch sampleMath t ox oy s = @updateBranch sampleMath t' ox oy s) /\
  (forall ox1 oy1 ox2 oy2 s1 ox oy s,
     @updateBranch sampleMath (@updateBranch sampleMath t ox1 oy1 s1) ox oy s =
     @updateBranch sampleMath (@updateBranch sampleMath t' ox2 oy2 s1) ox oy s).
Proof.
  apply (@X12_update_reads_core_only sampleMath).
  constructor; try reflexivity. cbn [children].
  constructor; [|constructor].
  constructor; try reflexivity. constructor.
Defined.

(** X15 at a session of the sample page: a frame, the window resized and the
    pointer moved, another frame. *)
Lemma X15_witness :
  let events := [(sample_window, AnimationFrame);
                 (mkWindow 1024 768, MouseMove 10 20);
                 (mkWindow 1024 768, AnimationFrame)] in
  let built :=
    @makeBranch sampleMath (list Z) scriptedRandom 1 1000
      (2000 / (800 / 600) / 2) 1 [2; 4; 1] in
  exists state t,
    @page sampleMath (list Z) scriptedRandom sample_window events [2; 4; 1]
      = (Some state, snd built) /\
    state !! "tree" = Some (VBranch t) /\
    same_shape (fst built) t /\
    state !! "width" = Some (VNum 2000) /\
    state !! "height" = Some (VNum (2000 / (800 / 600))) /\
    state !! "windowWidth" = Some (VNum 800) /\
    state !! "windowHeight" = Some (VNum 600).
Proof.
  apply (@X15_no_click_no_rebuild sampleMath (list Z) scriptedRandom
           sample_window).
  repeat constructor; discriminate.
Defined.
